(* ===== verification/_CoqProject ===== *)
-Q . S2P
Prelude.v
Float.v
Glam.v
Bevy.v
Player.v
Schedule.v
Plugin.v
F32.v
F32Safety.v
F32Equiv.v
RealModel.v
Refinement.v
