(* ===== verification/Prelude.v ===== *)
(** * A verification library for the player module of Learning-Bevy

    The repository is a small Bevy (0.10) game.  Its only source file,
    [src/src/player.rs], defines one plugin, [PlayerPlugin], that
    registers three systems on the application:

    - [spawn_player], a startup system: reads the single primary window
      and spawns, through deferred [Commands], one entity carrying a
      [SpriteBundle] whose [Transform] is the centre of the window, and
      the [Player] marker component;
    - [move_player], an update system: if exactly one [Player] entity
      exists, sums one unit direction per pressed direction (arrow key
      or its WASD alias), normalises the sum when it is non-zero, and
      adds [direction * PLAYER_SPEED * delta_seconds] to the
      translation;
    - [confine_player_movement], an update system: unwraps the single
      primary window (panicking when there is none) and clamps the
      player's x and y to [[PLAYER_RADIUS, width - PLAYER_RADIUS]] and
      [[PLAYER_RADIUS, height - PLAYER_RADIUS]] with two
      [if .. else if ..] chains.

    The systems share one piece of state: the [Transform] of the
    player entity, which both update systems query mutably.  The
    plugin adds the two update systems with no ordering constraint
    between them.

    ** Layout of the development

    - [Prelude] (this file): the [outcome] type of a system (normal
      return or panic) with its bind notation in [bevy_scope], Rust's
      [Result] and [unwrap], the [bevy] hint database and the shared
      tactics and lemmas.
    - [Float]: the interface [Float] of the f32 operations the code
      uses (literals, [+ - * /], [sqrt], [<], [<=], NaN test) and the
      interface [FloatLaws] of the order laws the clamp relies on.
      Every later component is written against these classes, so one
      model of the code is shared by the two instances below.
    - [Glam]: [Vec3] and [Quat] of the glam crate, with [Vec3::ZERO],
      [Vec3::new], [+], [Vec3 * f32], [dot], [length], [length_recip]
      and [normalize] as glam writes them (library code, modelled from
      its documented definitions).
    - [Bevy]: the part of Bevy the systems touch: [KeyCode] and
      [Input<KeyCode>::pressed], [Window::width/height], [Transform]
      and [Transform::from_xyz], the world as a list of entities with
      their components, [Query::get_single] and [get_single_mut] with
      [QuerySingleError], and deferred [Commands].
    - [Player]: [PLAYER_SPEED], [PLAYER_RADIUS], the [Player] marker,
      and the three systems of [player.rs], each a function from the
      world to an [outcome], with their functional behaviour on every
      branch (absent or duplicated player, missing window).
    - [Schedule]: [PlayerPlugin::build] as the list of systems it
      registers, the startup run, and one frame of the update schedule
      as a step relation that may run the two unordered systems in
      either order; reachability, the invariants preserved by every
      frame, and the order dependence of the clamp.
    - [Plugin]: Bevy's [Plugin] trait as a class, the [impl Plugin for
      PlayerPlugin] instance (lines 7-26: [build], the empty [setup],
      [name], [is_unique = true]), [Box<dyn Plugin>] as a record of
      methods, and [App::add_plugin] / [add_boxed_plugin] with the
      [plugin_name_added] set and the [DuplicatePlugin] panic.  The
      generic lemmas are proved against the class; the [PlayerPlugin]
      theorem uses the instance.
    - [F32]: the IEEE-754 binary32 instance of [Float] on the Standard
      Library's [SpecFloat] (precision 24, emax 128): the executable
      model of the f32 code, its order laws, concrete runs of the
      systems computed with [vm_compute], and the witnesses of the
      generic theorems at binary32 inputs.
    - [F32Safety]: finiteness and speed on binary32: SpecFloat's
      rounding never yields NaN, the clamp brings an infinity back to
      a bound, and the exact value ([to_Q]) of the velocity is the
      speed [PLAYER_SPEED] up to the unit roundoff.
    - [F32Equiv]: f32 equality up to the sign of zero as stdpp's
      [Equiv], lifted to vectors, transforms and storages, with
      [Proper] instances for [+], [*], [<] and [confine_axis], so
      setoid rewriting goes through the clamp.
    - [RealModel]: the instance of [Float] on the real numbers.
    - [Refinement]: the spec's Boundary Clamp on the reals (module
      [Spec]: a position record and the [Rmax]/[Rmin] clamp) and the
      proof that [confine_player_movement] computes it.

    ** What the theorems show

    - Schedule and order ([Schedule], [F32]): the plugin's update stage
      admits both orders of its two systems ([PlayerPlugin_admissible]);
      with the clamp ordered after the move every frame ends in the
      clamp rectangle ([chained_frame_in_bounds], generic over
      [FloatLaws], so on binary32); with the plugin as written a
      reachable binary32 frame (a 2 s frame, then a 1 s frame in the
      other order) ends at x = 968 in an 800-wide window
      ([F32.plain_plugin_leaves_bounds]).
    - Reachable states ([Schedule]): startup spawns one player at the
      window's centre, and every reachable world keeps one primary
      window and that one player, rotation and scale unchanged, by
      induction on [reachable].
    - The clamp ([Player], [Refinement]): in-bounds result, idempotence,
      the degenerate window (the player alternates between the bounds)
      and NaN (never clamped); the invariant is stated with the code's
      own comparisons and equals [min <= v <= max] off NaN
      ([in_range_le]); the clamp is the spec's [max(lo, min(v, hi))]
      ([confine_player_movement_confines]).
    - The move ([Player], [F32], [F32Safety], [F32Equiv]): only which
      directions are held matters (aliases count once); on binary32
      the velocity points along the held directions at exactly
      [PLAYER_SPEED] on one axis and, normalised, at [PLAYER_SPEED] up
      to the unit roundoff on a diagonal ([move_player_speed]); a zero
      net direction leaves the world unchanged unless a coordinate is
      [-0.0] ([move_player_zero_direction]), and unchanged up to the
      sign of zero in every case ([move_player_zero_direction_equiv]).
    - Errors ([Player], [Plugin]): each system's panic exactly when the
      primary window query is not a singleton, its silent skip when
      the player query is not a singleton (absent or duplicated
      player), and the panic of a second [add_plugin(PlayerPlugin)]
      ([add_PlayerPlugin_twice_panics]).
    - Finiteness on binary32 ([F32Safety]): with the clamp after the
      move a frame with any finite time keeps the player at finite
      coordinates in the rectangle ([chained_frame_finite]), and so
      does every run of such frames ([chained_run_finite], by
      induction on [finite_run]).

    The theorems about the clamp and the schedule are proved once
    against [FloatLaws] and hold for both instances; the binary32
    instance discharges [FloatLaws] through an order embedding of the
    non-NaN floats into integer triples.  The laws of the move are
    proved on binary32 only: over the reals they would hold exactly
    (exact speed, exact round trips) where the f32 code rounds.

    ** Bounds and fuel

    No fuel: every system is straight-line code, the stage runner is
    structural recursion on the list of systems, and the schedule is
    an inductive step relation over finite runs.  f32 is exact
    binary32 ([prec = 24], [emax = 128], round to nearest even).
    [delta_seconds] is any f32 in the model; Bevy's comes from a
    [Duration] and is finite and below [2^64] s, and the binary32
    theorems ask only that it be finite.  The finiteness theorems ask
    for finite bounds [width - 32], [height - 32]; the clamp
    refinement asks for windows at least [64] wide and high (twice
    [PLAYER_RADIUS]), below which the clamp is degenerate.  The speed
    law's tolerance is [200^2 * 2^-24] on the squared speed; the
    computed diagonal is within [2.1e-5] of [200^2].

    ** What is not modelled

    Rendering, asset loading (the texture handle is kept only as its
    path), window creation and the conversion of physical window size
    to [Window::width] (the logical size is a field), change detection,
    the string [std::any::type_name] returns (a type is identified by
    a constructor of [TypeName] instead), the rest of [App] (runner,
    sub-apps), and Bevy's choice of one order among the admissible
    ones (a nondeterministic choice in [frame]).  The [Player] marker
    (lines 28-29) carries no data: it is the set [players] of the
    world and the [b_player] flag of the spawned bundle, and has no
    definition of its own.

    ** Not yet proved

    Liveness of the chained schedule on binary32 (holding Right brings
    the player to [x = width - 32]) and a bound on how far the f32
    trajectory drifts from the real one: both need error bounds on
    SpecFloat's addition, which the Standard Library does not provide
    without Flocq.  Neither needs more of [player.rs] modelled. *)

From stdpp Require Import base list.
From Stdlib Require Import String ZArith.

Declare Scope bevy_scope.
Delimit Scope bevy_scope with bevy.

(** ** Outcome of a system *)

(** A Bevy system returns normally or panics; the only panics of
    [player.rs] are [Result::unwrap] on an [Err]. *)
Inductive outcome (A : Type) : Type :=
| Done (a : A)
| Panic (reason : string).
Arguments Done {A} a.
Arguments Panic {A} reason.

Definition obind {A B : Type} (m : outcome A) (k : A -> outcome B) : outcome B :=
  match m with
  | Done a => k a
  | Panic r => Panic r
  end.

Notation "x <- m ;; k" := (obind m (fun x => k))
  (at level 100, m at next level, right associativity) : bevy_scope.

(** Rust's [Result<T, E>]. *)
Inductive result (T E : Type) : Type :=
| Ok (t : T)
| Err (e : E).
Arguments Ok {T E} t.
Arguments Err {T E} e.

(** [Result::unwrap]: the value, or a panic. *)
Definition unwrap {T E : Type} (r : result T E) : outcome T :=
  match r with
  | Ok t => Done t
  | Err _ => Panic "called Result::unwrap() on an Err value"
  end.

(** ** Shared lemmas *)

Lemma obind_done_inv {A B : Type} (m : outcome A) (k : A -> outcome B) (b : B) :
  obind m k = Done b -> exists a, m = Done a /\ k a = Done b.
Proof. destruct m; simpl; [eauto | discriminate]. Qed.

Lemma obind_panic_l {A B : Type} (r : string) (k : A -> outcome B) :
  obind (Panic r) k = Panic r.
Proof. reflexivity. Qed.

Lemma obind_done_l {A B : Type} (a : A) (k : A -> outcome B) :
  obind (Done a) k = k a.
Proof. reflexivity. Qed.

Lemma Done_inj {A : Type} (a b : A) : Done a = Done b -> a = b.
Proof. congruence. Qed.

Lemma unwrap_done {T E : Type} (r : result T E) (t : T) :
  unwrap r = Done t <-> r = Ok t.
Proof. destruct r; simpl; split; congruence. Qed.

Create HintDb bevy discriminated.
Create Rewrite HintDb bevy_rw.
#[export] Hint Rewrite @obind_done_l @obind_panic_l : bevy_rw.

(** Break every [obind .. = Done ..] hypothesis into its two halves. *)
Ltac outcome_inv :=
  repeat match goal with
  | H : obind _ _ = Done _ |- _ =>
      let a := fresh "a" in let Ha := fresh "Hm" in
      apply obind_done_inv in H as (a & Ha & H)
  | H : Done _ = Done _ |- _ => injection H as H; subst
  | H : Panic _ = Done _ |- _ => discriminate H
  | H : unwrap _ = Done _ |- _ => apply unwrap_done in H
  end.

(** Case on every boolean [if] of the goal, keeping the equation. *)
Ltac split_ifs :=
  repeat match goal with
  | |- context [if ?b then _ else _] =>
      let E := fresh "E" in destruct b eqn:E
  end.
