(* ===== verification/Float.v ===== *)
(** * The f32 interface the player code is written against

    [player.rs] computes with Rust's [f32]: literals ([200.0], [32.0],
    [2.0], [1.0], [-1.0], [0.0]), the four operations, [f32::sqrt]
    (through glam's [length]) and the comparisons [<], [>] and [<=].
    [Float] collects exactly these operations; [FloatLaws] states the
    order laws the clamp needs.  Rust's comparisons are IEEE ones: a
    NaN operand makes every comparison false, so the laws relating
    [<] and [<=] are stated for non-NaN operands only.  The binary32
    instance is in [F32], the real-number one in [RealModel]. *)

From S2P Require Import Prelude.
From Stdlib Require Import ZArith.

Class Float (F : Type) := {
  f_lit : Z -> F;                 (** an integer literal such as [200.0] *)
  f_add : F -> F -> F;
  f_sub : F -> F -> F;
  f_mul : F -> F -> F;
  f_div : F -> F -> F;
  f_sqrt : F -> F;
  f_lt : F -> F -> bool;          (** Rust's [<] on f32 *)
  f_le : F -> F -> bool;          (** Rust's [<=] on f32 *)
  f_is_nan : F -> bool;
}.

Declare Scope float_scope.
Delimit Scope float_scope with F.
Infix "+" := f_add : float_scope.
Infix "-" := f_sub : float_scope.
Infix "*" := f_mul : float_scope.
Infix "/" := f_div : float_scope.
Infix "<?" := f_lt (at level 70) : float_scope.
Infix "<=?" := f_le (at level 70) : float_scope.

Class FloatLaws (F : Type) `{Float F} := {
  f_lt_irrefl : forall a, f_lt a a = false;
  f_lt_nan_l : forall a b, f_is_nan a = true -> f_lt a b = false;
  f_lt_nan_r : forall a b, f_is_nan b = true -> f_lt a b = false;
  f_le_not_lt : forall a b, f_is_nan a = false -> f_is_nan b = false ->
    f_le a b = negb (f_lt b a);
  f_lt_trans : forall a b c, f_lt a b = true -> f_lt b c = true -> f_lt a c = true;
}.

Section Order.
Context {F : Type} `{FloatLaws F}.

Lemma f_lt_asym (a b : F) : f_lt a b = true -> f_lt b a = false.
Proof.
  intros Hab. destruct (f_lt b a) eqn:Hba; [|reflexivity].
  rewrite <- (f_lt_irrefl a). symmetry. eapply f_lt_trans; eauto.
Qed.

Lemma f_le_refl (a : F) : f_is_nan a = false -> f_le a a = true.
Proof. intros Ha. rewrite f_le_not_lt, f_lt_irrefl by exact Ha. reflexivity. Qed.

Lemma f_le_of_not_lt (a b : F) :
  f_is_nan a = false -> f_is_nan b = false -> f_lt b a = false -> f_le a b = true.
Proof. intros Ha Hb Hlt. rewrite f_le_not_lt, Hlt by assumption. reflexivity. Qed.

Lemma f_le_of_lt (a b : F) :
  f_is_nan a = false -> f_is_nan b = false -> f_lt a b = true -> f_le a b = true.
Proof. intros Ha Hb Hlt. apply f_le_of_not_lt; auto using f_lt_asym. Qed.
End Order.

#[export] Hint Resolve f_le_refl f_le_of_not_lt f_le_of_lt f_lt_asym : bevy.
#[export] Hint Rewrite @f_lt_irrefl : bevy_rw.
