(* ===== verification/Glam.v ===== *)
(** * glam's [Vec3] and [Quat], as far as the player code uses them

    The operations are glam 0.23's scalar [Vec3] (the version Bevy
    0.10 re-exports): [dot] sums the three products left to right,
    [length] is [sqrt] of the dot product, [length_recip] is
    [1.0 / length] ([f32::recip]) and [normalize] multiplies by
    [length_recip] (its [glam_assert!] is compiled out in release
    builds).  They are library code, written here from glam's
    definitions, over any instance of [Float]. *)

From S2P Require Import Prelude Float.
From Stdlib Require Import ZArith.

Module Glam.
Section Vec.
Context {F : Type} `{Float F}.
Local Open Scope float_scope.

Record Vec3 := { x : F; y : F; z : F }.

(** [Vec3::new] *)
Definition new (a b c : F) : Vec3 := {| x := a; y := b; z := c |}.

(** [Vec3::splat], [Vec3::ZERO], [Vec3::ONE] *)
Definition splat (a : F) : Vec3 := new a a a.
Definition ZERO : Vec3 := splat (f_lit 0).
Definition ONE : Vec3 := splat (f_lit 1).

(** [impl Add for Vec3] (and [AddAssign], which assigns the sum) *)
Definition add (u v : Vec3) : Vec3 :=
  new (x u + x v) (y u + y v) (z u + z v).

(** [impl Mul<f32> for Vec3] *)
Definition mul (u : Vec3) (s : F) : Vec3 :=
  new (x u * s) (y u * s) (z u * s).

(** [Vec3::dot]: [(x * x') + (y * y') + (z * z')] *)
Definition dot (u v : Vec3) : F :=
  (x u * x v) + (y u * y v) + (z u * z v).

(** [Vec3::length], [f32::recip], [Vec3::length_recip] *)
Definition length (u : Vec3) : F := f_sqrt (dot u u).
Definition recip (a : F) : F := f_lit 1 / a.
Definition length_recip (u : Vec3) : F := recip (length u).

(** [Vec3::normalize] *)
Definition normalize (u : Vec3) : Vec3 := mul u (length_recip u).

(** [Quat], kept as its four components; only [Quat::IDENTITY] is
    used (by [Transform::from_xyz]). *)
Record Quat := { qx : F; qy : F; qz : F; qw : F }.
Definition Quat_IDENTITY : Quat :=
  {| qx := f_lit 0; qy := f_lit 0; qz := f_lit 0; qw := f_lit 1 |}.
End Vec.
End Glam.

Arguments Glam.Vec3 F : clear implicits.
Arguments Glam.Quat F : clear implicits.
