(* ===== verification/Bevy.v ===== *)
(** * The part of Bevy 0.10 the player systems touch

    The ECS world is modelled as Bevy's component storage is used: one
    finite map from entity to component per component type the code
    names ([Transform], [Window], the texture handle of [SpriteBundle])
    and one set per marker component ([Player], [PrimaryWindow]), plus
    the two resources the systems read ([Input<KeyCode>] and [Time]).
    A [Query<&C, With<M>>] is the restriction of the map of [C] to the
    set of [M]; [get_single] / [get_single_mut] return its only entry
    or [QuerySingleError].  [Commands] are deferred: a system returns
    the list of commands it queued and the schedule applies them.
    Entities are allocated from a counter, as Bevy's [Entities]
    allocator does for a world in which nothing is despawned. *)

From S2P Require Import Prelude Float Glam.
From stdpp Require Import base list gmap.
From Stdlib Require Import String ZArith.

Module Bevy.

(** [KeyCode]: the eight keys [player.rs] polls, and every other key
    by an opaque code.  The constructors live in their own module so
    that they read [KeyCode.Left], as the source's [KeyCode::Left]. *)
Module KeyCode.
Inductive t : Type :=
| Left | Right | Up | Down | A | D | W | S
| OtherKey (code : nat).
End KeyCode.
Abbreviation KeyCode := KeyCode.t.

#[export] Instance KeyCode_eq_dec : EqDecision KeyCode.
Proof. solve_decision. Defined.

(** [Input<KeyCode>]: the set of keys held this frame. *)
Record Input := { pressed_keys : list KeyCode }.

(** [Input::pressed] *)
Definition pressed (inp : Input) (k : KeyCode) : bool :=
  bool_decide (k ∈ pressed_keys inp).

(** [QuerySingleError] *)
Inductive QuerySingleError : Type :=
| NoEntities
| MultipleEntities.

(** An entity id, [Entity]. *)
Abbreviation Entity := nat (only parsing).

Section World.
Context {F : Type} `{Float F}.

(** [Window]: its logical size, [Window::width] and [Window::height]. *)
Record Window := { width : F; height : F }.

(** [Transform] *)
Record Transform := {
  translation : Glam.Vec3 F;
  rotation : Glam.Quat F;
  scale : Glam.Vec3 F;
}.

(** [Transform::from_xyz]: [from_translation(Vec3::new(x, y, z))],
    the rest of [Transform::IDENTITY]. *)
Definition from_xyz (a b c : F) : Transform :=
  {| translation := Glam.new a b c;
     rotation := Glam.Quat_IDENTITY;
     scale := Glam.ONE |}.

Definition set_translation (t : Transform) (v : Glam.Vec3 F) : Transform :=
  {| translation := v; rotation := rotation t; scale := scale t |}.

(** The world: component storages, markers and resources. *)
Record World := {
  next_entity : Entity;
  transforms : gmap Entity Transform;
  textures : gmap Entity string;
  windows : gmap Entity Window;
  players : gset Entity;
  primary_windows : gset Entity;
  keyboard : Input;
  delta_seconds : F;
}.

Definition set_transforms (w : World) (m : gmap Entity Transform) : World :=
  {| next_entity := next_entity w; transforms := m; textures := textures w;
     windows := windows w; players := players w;
     primary_windows := primary_windows w; keyboard := keyboard w;
     delta_seconds := delta_seconds w |}.

(** The resources a frame reads afresh: the keys held and the time
    elapsed since the last frame. *)
Definition set_resources (w : World) (kb : Input) (dt : F) : World :=
  {| next_entity := next_entity w; transforms := transforms w;
     textures := textures w; windows := windows w; players := players w;
     primary_windows := primary_windows w; keyboard := kb; delta_seconds := dt |}.

(** Window sizes supplied afresh by the windowing backend (a resize). *)
Definition set_windows (w : World) (ws : gmap Entity Window) : World :=
  {| next_entity := next_entity w; transforms := transforms w;
     textures := textures w; windows := ws; players := players w;
     primary_windows := primary_windows w; keyboard := keyboard w;
     delta_seconds := delta_seconds w |}.

(** [Query<&C, With<M>>]: the components [C] of the entities marked [M]. *)
Definition query_with {C : Type} (m : gmap Entity C) (marker : gset Entity)
    : gmap Entity C :=
  filter (fun ec => ec.1 ∈ marker) m.

(** [Query::get_single] and [Query::get_single_mut] *)
Definition get_single {C : Type} (q : gmap Entity C)
    : result (Entity * C) QuerySingleError :=
  match map_to_list q with
  | [] => Err NoEntities
  | [ec] => Ok ec
  | _ :: _ :: _ => Err MultipleEntities
  end.

(** A bundle to spawn: the components of [SpriteBundle] the model
    keeps (its transform and texture) and the [Player] marker. *)
Record Bundle := {
  b_transform : Transform;
  b_texture : string;
  b_player : bool;
}.

(** The commands [player.rs] queues. *)
Inductive Command : Type :=
| Spawn (b : Bundle).

(** Applying one command at the sync point. *)
Definition apply_command (w : World) (c : Command) : World :=
  match c with
  | Spawn b =>
      let e := next_entity w in
      {| next_entity := S e;
         transforms := <[e := b_transform b]> (transforms w);
         textures := <[e := b_texture b]> (textures w);
         windows := windows w;
         players := if b_player b then {[e]} ∪ players w else players w;
         primary_windows := primary_windows w;
         keyboard := keyboard w;
         delta_seconds := delta_seconds w |}
  end.

(** [apply_system_buffers]: the queued commands, in order. *)
Definition apply_commands (w : World) (cs : list Command) : World :=
  foldl apply_command w cs.
End World.

Arguments Window F : clear implicits.
Arguments Transform F : clear implicits.
Arguments World F : clear implicits.
Arguments Bundle F : clear implicits.
Arguments Command F : clear implicits.

(** ** Lemmas on queries *)
Section Queries.
Context {C : Type}.

Lemma get_single_ok (q : gmap Entity C) (e : Entity) (c : C) :
  get_single q = Ok (e, c) <-> q = {[e := c]}.
Proof.
  unfold get_single. split.
  - destruct (map_to_list q) as [|ec [|ec' l]] eqn:Hl; try discriminate.
    intros Heq; injection Heq as ->.
    rewrite <- (list_to_map_to_list q), Hl. simpl. by rewrite insert_empty.
  - intros ->. by rewrite map_to_list_singleton.
Qed.

Lemma get_single_singleton (e : Entity) (c : C) :
  get_single ({[e := c]} : gmap Entity C) = Ok (e, c).
Proof. by apply get_single_ok. Qed.

Lemma get_single_empty : get_single (∅ : gmap Entity C) = Err NoEntities.
Proof. unfold get_single. by rewrite map_to_list_empty. Qed.

Lemma get_single_err_iff (q : gmap Entity C) :
  (exists err, get_single q = Err err) <-> size q <> 1.
Proof.
  unfold get_single. rewrite <- length_map_to_list.
  destruct (map_to_list q) as [|ec [|ec' l]]; simpl.
  - split; [lia | eauto].
  - split; [intros [err Herr]; discriminate | lia].
  - split; [lia | eauto].
Qed.

Lemma query_with_singleton_in (m : gmap Entity C) (marker : gset Entity) e c :
  query_with m marker = {[e := c]} -> e ∈ marker /\ m !! e = Some c.
Proof.
  unfold query_with. intros Hq.
  assert (filter (fun ec => ec.1 ∈ marker) m !! e = Some c) as Hl
    by (rewrite Hq; apply lookup_singleton_eq).
  apply map_lookup_filter_Some in Hl as [Hm Hin]. auto.
Qed.

Lemma query_with_insert_in (m : gmap Entity C) (marker : gset Entity) e c :
  e ∈ marker -> query_with (<[e := c]> m) marker = <[e := c]> (query_with m marker).
Proof. intros He. unfold query_with. by apply map_filter_insert_True. Qed.
Lemma dom_query_with {D : Type} (m : gmap Entity D) (marker : gset Entity) :
  dom (query_with m marker) = dom m ∩ marker.
Proof.
  unfold query_with. apply dom_filter_L. intros i.
  rewrite elem_of_intersection, elem_of_dom. split.
  - intros [[x Hx] Hin]. eauto.
  - intros (x & Hx & Hin). eauto.
Qed.

(** A query with one result keeps one result, on the same entity,
    when the storage is replaced by one with the same entities. *)
Lemma query_with_same_dom {C'} (m : gmap Entity C) (m' : gmap Entity C')
    (marker : gset Entity) e c :
  dom m = dom m' -> query_with m marker = {[e := c]} ->
  exists c', query_with m' marker = {[e := c']}.
Proof.
  intros Hd Hq. apply dom_singleton_inv_L.
  rewrite dom_query_with, <- Hd, <- (dom_query_with m), Hq. apply dom_singleton_L.
Qed.

(** Updating the only component the query returns. *)
Lemma query_with_update_single (m : gmap Entity C) (marker : gset Entity) e c c' :
  query_with m marker = {[e := c]} -> query_with (<[e := c']> m) marker = {[e := c']}.
Proof.
  intros Hq. destruct (query_with_singleton_in m marker e c Hq) as [Hin _].
  rewrite query_with_insert_in, Hq by exact Hin. apply insert_singleton_eq.
Qed.
End Queries.

End Bevy.
