(* ===== verification/Player.v ===== *)
(** * The systems of [src/src/player.rs]

    Each system is a function from the world to an [outcome] of the
    new world and the commands it queued, over any [Float] instance:
    [spawn_player] (lines 31-46), [move_player] (lines 48-75, its
    direction sum in [direction_of], lines 54-67, its normalised
    velocity in [velocity_of], lines 69-73) and
    [confine_player_movement] (lines 77-101, each axis's
    [if .. else if ..] chain in [confine_axis], lines 88-92).  The
    theorems give each system's behaviour on every branch and the
    clamp invariant, proved against [FloatLaws]. *)

From S2P Require Import Prelude Float Glam Bevy.
From stdpp Require Import base list gmap.
From Stdlib Require Import String ZArith.

Module Player.
Import Bevy.

Section Systems.
Context {F : Type} `{Float F}.
Local Open Scope float_scope.
Local Open Scope bevy_scope.

(** [const PLAYER_SPEED: f32 = 200.0;] *)
Definition PLAYER_SPEED : F := f_lit 200.
(** [const PLAYER_RADIUS: f32 = 32.0;] *)
Definition PLAYER_RADIUS : F := f_lit 32.

(** A system: the world in, the world out with the commands it
    queued, or a panic. *)
Definition System := World F -> outcome (World F * list (Command F)).

(** [Query<&Window, With<PrimaryWindow>>] *)
Definition window_query (w : World F) : gmap Entity (Window F) :=
  query_with (windows w) (primary_windows w).

(** [Query<&mut Transform, With<Player>>] *)
Definition player_query (w : World F) : gmap Entity (Transform F) :=
  query_with (transforms w) (players w).

(** [spawn_player]: unwrap the single primary window and queue the
    spawn of the sprite at its centre, with the [Player] marker. *)
Definition spawn_player : System := fun w =>
  window <- unwrap (get_single (window_query w)) ;;
  let window := window.2 in
  Done (w, [Spawn {| b_transform :=
                       from_xyz (width window / f_lit 2) (height window / f_lit 2) (f_lit 0);
                     b_texture := "sprites/ball_blue_large.png";
                     b_player := true |}]).

(** Lines 54-67 of [move_player]: one unit vector per held
    direction, a key and its alias counted once. *)
Definition direction_of (keyboard : Input) : Glam.Vec3 F :=
  let direction := Glam.ZERO in
  let direction :=
    if pressed keyboard KeyCode.Left || pressed keyboard KeyCode.A
    then Glam.add direction (Glam.new (f_lit (-1)) (f_lit 0) (f_lit 0)) else direction in
  let direction :=
    if pressed keyboard KeyCode.Right || pressed keyboard KeyCode.D
    then Glam.add direction (Glam.new (f_lit 1) (f_lit 0) (f_lit 0)) else direction in
  let direction :=
    if pressed keyboard KeyCode.Up || pressed keyboard KeyCode.W
    then Glam.add direction (Glam.new (f_lit 0) (f_lit 1) (f_lit 0)) else direction in
  if pressed keyboard KeyCode.Down || pressed keyboard KeyCode.S
  then Glam.add direction (Glam.new (f_lit 0) (f_lit (-1)) (f_lit 0)) else direction.

(** Lines 69-73 of [move_player]: the direction, normalised when its
    length is positive, times [PLAYER_SPEED]; [direction * PLAYER_SPEED]
    is evaluated before the product with [delta_seconds]. *)
Definition velocity_of (direction : Glam.Vec3 F) : Glam.Vec3 F :=
  let direction :=
    if f_lt (f_lit 0) (Glam.length direction) then Glam.normalize direction
    else direction in
  Glam.mul direction PLAYER_SPEED.

(** [move_player] *)
Definition move_player : System := fun w =>
  match get_single (player_query w) with
  | Ok (e, transform) =>
      let direction := direction_of (keyboard w) in
      let t := set_translation transform
                 (Glam.add (translation transform)
                    (Glam.mul (velocity_of direction) (delta_seconds w))) in
      Done (set_transforms w (<[e := t]> (transforms w)), [])
  | Err _ => Done (w, [])
  end.

(** Lines 88-92 (and 93-97 for y): [if v < lo { lo } else if v > hi { hi }]. *)
Definition confine_axis (v lo hi : F) : F :=
  if f_lt v lo then lo else if f_lt hi v then hi else v.

(** [min_xy] and [max_xy] of lines 82-83. *)
Definition min_xy : F := f_lit 0 + PLAYER_RADIUS.
Definition max_xy (win : Window F) : F * F :=
  (width win - PLAYER_RADIUS, height win - PLAYER_RADIUS).

(** [confine_player_movement] *)
Definition confine_player_movement : System := fun w =>
  win <- unwrap (get_single (window_query w)) ;;
  let win := win.2 in
  match get_single (player_query w) with
  | Ok (e, transform) =>
      let tr := translation transform in
      let tr := Glam.new (confine_axis (Glam.x tr) min_xy (max_xy win).1)
                         (confine_axis (Glam.y tr) min_xy (max_xy win).2)
                         (Glam.z tr) in
      Done (set_transforms w (<[e := set_translation transform tr]> (transforms w)), [])
  | Err _ => Done (w, [])
  end.
End Systems.

Arguments System F : clear implicits.

(** ** The clamp on one axis *)

Section Clamp.
Context {F : Type} `{FloatLaws F}.

(** The position is inside [[lo, hi]] as the code's own guards see
    it: neither [v < lo] nor [v > hi]. *)
Definition in_range (lo hi v : F) : bool := negb (f_lt v lo) && negb (f_lt hi v).

Lemma in_range_le (lo hi v : F) :
  f_is_nan lo = false -> f_is_nan hi = false -> f_is_nan v = false ->
  in_range lo hi v = f_le lo v && f_le v hi.
Proof. intros Hlo Hhi Hv. unfold in_range. by rewrite !f_le_not_lt. Qed.

Lemma confine_axis_in_range (v lo hi : F) :
  f_lt hi lo = false -> in_range lo hi (confine_axis v lo hi) = true.
Proof.
  intros Hdeg. unfold confine_axis, in_range.
  split_ifs; autorewrite with bevy_rw; by rewrite ?Hdeg, ?E, ?E0.
Qed.

Lemma confine_axis_id (v lo hi : F) :
  in_range lo hi v = true -> confine_axis v lo hi = v.
Proof.
  unfold in_range, confine_axis. intros Hr.
  split_ifs; rewrite ?E, ?E0 in Hr; done.
Qed.

(** C19: In a window narrower than [2 * PLAYER_RADIUS] the clamp sends
    the lower bound to the upper one and back. *)
Lemma confine_axis_degenerate (lo hi : F) :
  f_lt hi lo = true -> confine_axis lo lo hi = hi /\ confine_axis hi lo hi = lo.
Proof. intros Hd. unfold confine_axis. rewrite f_lt_irrefl, Hd. split; reflexivity. Qed.

(** C20: A NaN coordinate fails both guards and is never clamped. *)
Lemma confine_axis_nan (v lo hi : F) : f_is_nan v = true -> confine_axis v lo hi = v.
Proof. intros Hv. unfold confine_axis. by rewrite (f_lt_nan_l v lo Hv), (f_lt_nan_r hi v Hv). Qed.
End Clamp.

(** ** Behaviour of the systems *)

Section Behaviour.
Context {F : Type} `{FloatLaws F}.
Local Open Scope float_scope.

(** Both coordinates in the clamp rectangle of [win], by the code's guards. *)
Definition player_in_bounds (win : Window F) (t : Transform F) : bool :=
  in_range min_xy (max_xy win).1 (Glam.x (translation t)) &&
  in_range min_xy (max_xy win).2 (Glam.y (translation t)).

(** The window is wide and high enough for the clamp interval to be
    non-empty ([width, height >= 2 * PLAYER_RADIUS]). *)
Definition window_fits (win : Window F) : bool :=
  negb (f_lt (max_xy win).1 min_xy) && negb (f_lt (max_xy win).2 min_xy).

(** A direction is held when its arrow key or its alias is pressed. *)
Definition held (kb : Input) (arrow alias : KeyCode) : bool :=
  pressed kb arrow || pressed kb alias.

Definition direction_keys : list (KeyCode * KeyCode) :=
  [(KeyCode.Left, KeyCode.A); (KeyCode.Right, KeyCode.D);
   (KeyCode.Up, KeyCode.W); (KeyCode.Down, KeyCode.S)].

(** Two inputs hold the same directions. *)
Definition same_held (kb1 kb2 : Input) : bool :=
  forallb (fun p => Bool.eqb (held kb1 p.1 p.2) (held kb2 p.1 p.2)) direction_keys.

Lemma direction_of_same_held (kb1 kb2 : Input) :
  same_held kb1 kb2 = true -> direction_of kb1 = direction_of kb2.
Proof.
  unfold same_held, held, direction_of. simpl.
  rewrite !andb_true_iff. intros (H1 & H2 & H3 & H4 & _).
  apply Bool.eqb_prop in H1, H2, H3, H4. by rewrite H1, H2, H3, H4.
Qed.

Lemma direction_of_none (kb : Input) :
  forallb (fun p => negb (held kb p.1 p.2)) direction_keys = true ->
  direction_of kb = Glam.ZERO.
Proof.
  unfold held, direction_of. simpl. rewrite !andb_true_iff.
  intros (H1 & H2 & H3 & H4 & _). apply negb_true_iff in H1, H2, H3, H4.
  by rewrite H1, H2, H3, H4.
Qed.

Lemma window_query_set_transforms (w : World F) m :
  window_query (set_transforms w m) = window_query w.
Proof. reflexivity. Qed.

Lemma player_query_set_transforms (w : World F) m :
  player_query (set_transforms w m) = query_with m (players w).
Proof. reflexivity. Qed.

Lemma set_transforms_id (w : World F) : set_transforms w (transforms w) = w.
Proof. by destruct w. Qed.

Lemma get_single_window (w : World F) ew win :
  window_query w = {[ew := win]} -> get_single (window_query w) = Ok (ew, win).
Proof. intros Hq. by apply get_single_ok. Qed.
End Behaviour.

(** ** Theorems on the systems *)

Section Theorems.
Context {F : Type} `{FloatLaws F}.

(** With one player, [move_player] writes that player's transform,
    changing only its translation, and queues nothing. *)
Lemma move_player_result (w : World F) e t :
  player_query w = {[e := t]} ->
  exists v, move_player w = Done (set_transforms w (<[e := set_translation t v]> (transforms w)), []).
Proof.
  intros Hp. unfold move_player. rewrite (proj2 (get_single_ok _ e t) Hp). eauto.
Qed.

(** The move's write, with one player: the translation plus the
    velocity times [delta_seconds]. *)
Lemma move_player_exact (w : World F) e t :
  player_query w = {[e := t]} ->
  move_player w =
    Done (set_transforms w (<[e := set_translation t
      (Glam.add (translation t)
         (Glam.mul (velocity_of (direction_of (keyboard w))) (delta_seconds w)))]> (transforms w)), []).
Proof. intros Hp. unfold move_player. by rewrite (proj2 (get_single_ok _ e t) Hp). Qed.

(** The clamp's write, with one primary window and one player. *)
Lemma confine_player_movement_exact (w : World F) ew win e t :
  window_query w = {[ew := win]} -> player_query w = {[e := t]} ->
  confine_player_movement w =
    Done (set_transforms w (<[e := set_translation t
      (Glam.new (confine_axis (Glam.x (translation t)) min_xy (max_xy win).1)
                (confine_axis (Glam.y (translation t)) min_xy (max_xy win).2)
                (Glam.z (translation t)))]> (transforms w)), []).
Proof.
  intros Hw Hp. unfold confine_player_movement.
  by rewrite (get_single_window w ew win Hw), (proj2 (get_single_ok _ e t) Hp).
Qed.

(** With one primary window and one player, the clamp writes that
    player's transform, changing only its x and y, and queues nothing. *)
Lemma confine_player_movement_result (w : World F) ew win e t :
  window_query w = {[ew := win]} -> player_query w = {[e := t]} ->
  exists v, confine_player_movement w =
              Done (set_transforms w (<[e := set_translation t v]> (transforms w)), [])
    /\ Glam.z v = Glam.z (translation t)
    /\ (window_fits win = true -> player_in_bounds win (set_translation t v) = true).
Proof.
  intros Hw Hp. rewrite (confine_player_movement_exact w ew win e t Hw Hp).
  eexists; split; [reflexivity | split; [reflexivity|]].
  intros Hfit. apply andb_true_iff in Hfit as [Hx Hy]. apply negb_true_iff in Hx, Hy.
  unfold player_in_bounds. simpl. by rewrite !confine_axis_in_range.
Qed.

(** Writing the player's transform keeps the player query a singleton. *)
Lemma player_query_update (w : World F) e t t' :
  player_query w = {[e := t]} ->
  player_query (set_transforms w (<[e := t']> (transforms w))) = {[e := t']}.
Proof. intros Hp. apply (query_with_update_single _ _ _ t). exact Hp. Qed.

(** C5: [confine_player_movement] establishes the clamp invariant:
    with one primary window wide and high enough, and one player,
    the clamp writes a transform whose x and y satisfy neither
    [< min_xy] nor [> max_xy], and keeps z, rotation and scale. *)
Theorem confine_player_movement_in_bounds (w : World F) ew win e t :
  window_query w = {[ew := win]} -> player_query w = {[e := t]} ->
  window_fits win = true ->
  exists t', confine_player_movement w = Done (set_transforms w (<[e := t']> (transforms w)), [])
    /\ player_in_bounds win t' = true
    /\ Glam.z (translation t') = Glam.z (translation t)
    /\ rotation t' = rotation t /\ scale t' = scale t.
Proof.
  intros Hw Hp Hfit. unfold confine_player_movement.
  rewrite (get_single_window w ew win Hw), (proj2 (get_single_ok _ e t) Hp).
  eexists; split; [reflexivity|]. apply andb_true_iff in Hfit as [Hx Hy].
  apply negb_true_iff in Hx, Hy. unfold player_in_bounds. simpl.
  rewrite !confine_axis_in_range by assumption. auto.
Qed.

(** C17: the clamp is idempotent on a world whose window fits: a
    second run right after the first changes nothing. *)
Theorem confine_player_movement_idempotent (w w1 : World F) cs ew win :
  window_query w = {[ew := win]} -> window_fits win = true ->
  confine_player_movement w = Done (w1, cs) -> confine_player_movement w1 = Done (w1, []).
Proof.
  intros Hw Hfit Hc. unfold confine_player_movement in *.
  rewrite (get_single_window w ew win Hw) in Hc. simpl in Hc.
  destruct (get_single (player_query w)) as [[e t]|err] eqn:Hp.
  - injection Hc as <- <-. apply get_single_ok in Hp.
    rewrite window_query_set_transforms, (get_single_window w ew win Hw). simpl.
    rewrite player_query_set_transforms, (query_with_update_single _ _ _ t) by exact Hp.
    rewrite get_single_singleton. simpl.
    apply andb_true_iff in Hfit as [Hx Hy]. apply negb_true_iff in Hx, Hy.
    rewrite !(confine_axis_id (confine_axis _ _ _)) by (apply confine_axis_in_range; assumption).
    unfold set_transforms; simpl. by rewrite insert_insert_eq.
  - injection Hc as <- <-. rewrite (get_single_window w ew win Hw). simpl. by rewrite Hp.
Qed.
(** C13: [confine_player_movement] panics exactly when the world does
    not hold exactly one primary window: its [unwrap] runs on every
    frame, before the player query. *)
Theorem confine_player_movement_panics (w : World F) :
  (exists r, confine_player_movement w = Panic r) <-> size (window_query w) <> 1.
Proof.
  rewrite <- get_single_err_iff. unfold confine_player_movement.
  destruct (get_single (window_query w)) as [[ew win]|err]; simpl.
  - split; [intros [r Hr] | intros [err Herr]; discriminate].
    destruct (get_single (player_query w)) as [[e t]|]; discriminate.
  - split; eauto.
Qed.

(** C14: [spawn_player] panics exactly when the world does not hold
    exactly one primary window. *)
Theorem spawn_player_panics (w : World F) :
  (exists r, spawn_player w = Panic r) <-> size (window_query w) <> 1.
Proof.
  rewrite <- get_single_err_iff. unfold spawn_player.
  destruct (get_single (window_query w)) as [[ew win]|err]; simpl.
  - split; [intros [r Hr]; discriminate | intros [err Herr]; discriminate].
  - split; eauto.
Qed.

(** C15: without exactly one player ([get_single_mut] returns
    [NoEntities] or [MultipleEntities]) [move_player] changes nothing. *)
Theorem move_player_skips (w : World F) :
  size (player_query w) <> 1 -> move_player w = Done (w, []).
Proof.
  intros Hs. apply get_single_err_iff in Hs as [err Herr].
  unfold move_player. by rewrite Herr.
Qed.

(** C16: with one primary window but not exactly one player the clamp
    changes nothing. *)
Theorem confine_player_movement_skips (w : World F) ew win :
  window_query w = {[ew := win]} -> size (player_query w) <> 1 ->
  confine_player_movement w = Done (w, []).
Proof.
  intros Hw Hs. apply get_single_err_iff in Hs as [err Herr].
  unfold confine_player_movement. rewrite (get_single_window w ew win Hw). simpl.
  by rewrite Herr.
Qed.

(** C10: [move_player] sees only which directions are held: a key and
    its alias move the player alike, and holding both moves it as
    holding one. *)
Theorem move_player_same_held (w : World F) kb1 kb2 dt :
  same_held kb1 kb2 = true ->
  exists w1 w2, move_player (set_resources w kb1 dt) = Done (w1, [])
    /\ move_player (set_resources w kb2 dt) = Done (w2, [])
    /\ transforms w1 = transforms w2.
Proof.
  intros Hs. unfold move_player.
  change (player_query (set_resources w kb1 dt)) with (player_query w).
  change (player_query (set_resources w kb2 dt)) with (player_query w).
  destruct (get_single (player_query w)) as [[e t]|err];
    do 2 eexists; (split; [reflexivity | split; [reflexivity|]]); simpl; [|reflexivity].
  by rewrite (direction_of_same_held kb1 kb2 Hs).
Qed.
End Theorems.

End Player.
