(* ===== verification/Schedule.v ===== *)
(** * [PlayerPlugin::build] and the schedule that runs the systems

    [PlayerPlugin::build] (lines 9-13) registers [spawn_player] as a
    startup system and [move_player] and [confine_player_movement] as
    update systems, with no ordering constraint between the two.
    Bevy's executor runs the systems of a stage one at a time when
    they conflict (both query [&mut Transform]) in an order of its
    choice that respects the declared constraints, then applies the
    queued commands.  A frame is modelled as a step relation over
    every such order, after the backend has supplied fresh input,
    time and window sizes; [reachable] is the set of worlds reached by
    the startup run and any number of frames. *)

From S2P Require Import Prelude Float Glam Bevy Player.
From stdpp Require Import base list gmap.
From Stdlib Require Import String ZArith Sorting.Permutation.

Module Schedule.
Import Bevy Player.

(** The systems of [player.rs], by name. *)
Inductive SystemId : Type :=
| SpawnPlayer
| MovePlayer
| ConfinePlayerMovement.

#[export] Instance SystemId_eq_dec : EqDecision SystemId.
Proof. solve_decision. Defined.

(** The registrations of an [App]: startup systems, update systems and
    the constraints [(a, b)], "a runs before b", between update systems. *)
Record App := {
  startup_systems : list SystemId;
  update_systems : list SystemId;
  update_before : list (SystemId * SystemId);
}.

Definition empty_app : App :=
  {| startup_systems := []; update_systems := []; update_before := [] |}.

(** [App::add_startup_system] *)
Definition add_startup_system (s : SystemId) (app : App) : App :=
  {| startup_systems := startup_systems app ++ [s];
     update_systems := update_systems app;
     update_before := update_before app |}.

(** [App::add_system] *)
Definition add_system (s : SystemId) (app : App) : App :=
  {| startup_systems := startup_systems app;
     update_systems := update_systems app ++ [s];
     update_before := update_before app |}.

(** [PlayerPlugin::build] *)
Definition PlayerPlugin_build (app : App) : App :=
  add_system ConfinePlayerMovement (add_system MovePlayer (add_startup_system SpawnPlayer app)).

(** An explicit constraint, [a.before(b)]. *)
Definition add_before (a b : SystemId) (app : App) : App :=
  {| startup_systems := startup_systems app;
     update_systems := update_systems app;
     update_before := update_before app ++ [(a, b)] |}.

(** The registration the spec asks for: the clamp after the move. *)
Definition PlayerPlugin_build_chained (app : App) : App :=
  add_before MovePlayer ConfinePlayerMovement (PlayerPlugin_build app).

(** Whether [a] runs before [b] in the order [ord]. *)
Fixpoint runs_before (a b : SystemId) (ord : list SystemId) : bool :=
  match ord with
  | [] => false
  | s :: ord' =>
      if decide (s = a) then bool_decide (b ∈ ord')
      else if decide (s = b) then false
      else runs_before a b ord'
  end.

Definition respects (cs : list (SystemId * SystemId)) (ord : list SystemId) : bool :=
  forallb (fun c => runs_before c.1 c.2 ord) cs.

(** An order the executor may choose for the update systems. *)
Definition admissible (app : App) (ord : list SystemId) : Prop :=
  ord ≡ₚ update_systems app /\ respects (update_before app) ord = true.

Section Run.
Context {F : Type} `{Float F}.

Definition run_system (s : SystemId) : System F :=
  match s with
  | SpawnPlayer => spawn_player
  | MovePlayer => move_player
  | ConfinePlayerMovement => confine_player_movement
  end.

(** The systems one after the other, their commands collected. *)
Fixpoint run_systems (ord : list SystemId) (w : World F) (cs : list (Command F))
    : outcome (World F * list (Command F)) :=
  match ord with
  | [] => Done (w, cs)
  | s :: ord' =>
      obind (run_system s w) (fun r => run_systems ord' r.1 (cs ++ r.2))
  end.

(** A stage: its systems in order, then the commands at the sync point. *)
Definition run_stage (ord : list SystemId) (w : World F) : outcome (World F) :=
  obind (run_systems ord w []) (fun r => Done (apply_commands r.1 r.2)).

(** The world the app starts from: the primary window, entity 0. *)
Definition initial_world (win : Window F) (kb : Input) (dt : F) : World F :=
  {| next_entity := 1; transforms := ∅; textures := ∅;
     windows := {[0 := win]}; players := ∅; primary_windows := {[0]};
     keyboard := kb; delta_seconds := dt |}.

(** One frame: fresh input, time and window sizes (the same windows),
    then the update systems in an admissible order. *)
Inductive frame (app : App) : World F -> World F -> Prop :=
| frame_run w ws kb dt ord w' :
    dom ws = dom (windows w) -> admissible app ord ->
    run_stage ord (set_resources (set_windows w ws) kb dt) = Done w' ->
    frame app w w'.

Inductive reachable (app : App) : World F -> Prop :=
| reachable_startup win kb dt w :
    run_stage (startup_systems app) (initial_world win kb dt) = Done w ->
    reachable app w
| reachable_frame w w' :
    reachable app w -> frame app w w' -> reachable app w'.
End Run.

(** ** Orders the executor may choose *)

Lemma run_stage_two {F : Type} `{Float F} (a b : SystemId) (w w' : World F) :
  run_stage [a; b] w = Done w' ->
  exists w1 cs1 w2 cs2, run_system a w = Done (w1, cs1) /\ run_system b w1 = Done (w2, cs2)
    /\ w' = apply_commands w2 (cs1 ++ cs2).
Proof.
  unfold run_stage. simpl. intros Hr.
  destruct (run_system a w) as [[w1 cs1]|r] eqn:Ha; [|discriminate]. simpl in Hr.
  destruct (run_system b w1) as [[w2 cs2]|r] eqn:Hb; [|discriminate]. simpl in Hr.
  injection Hr as <-. exists w1, cs1, w2, cs2. auto.
Qed.

(** C3: the plugin puts no constraint between its two update systems:
    the executor may run the clamp before the move. *)
Theorem PlayerPlugin_admissible (ord : list SystemId) :
  admissible (PlayerPlugin_build empty_app) ord <->
  ord = [MovePlayer; ConfinePlayerMovement] \/ ord = [ConfinePlayerMovement; MovePlayer].
Proof.
  unfold admissible; simpl. split.
  - intros [Hp _]. symmetry in Hp. by apply Permutation_length_2_inv in Hp.
  - intros [-> | ->]; split; try reflexivity. apply perm_swap.
Qed.

Lemma PlayerPlugin_chained_admissible (ord : list SystemId) :
  admissible (PlayerPlugin_build_chained empty_app) ord <->
  ord = [MovePlayer; ConfinePlayerMovement].
Proof.
  unfold admissible; simpl. split.
  - intros [Hp Hr]. symmetry in Hp. apply Permutation_length_2_inv in Hp as [-> | ->]; done.
  - intros ->. by split.
Qed.

(** Neither registration spawns in the update stage. *)
Lemma PlayerPlugin_no_spawn :
  SpawnPlayer ∉ update_systems (PlayerPlugin_build empty_app)
  /\ SpawnPlayer ∉ update_systems (PlayerPlugin_build_chained empty_app).
Proof. simpl. split; rewrite !not_elem_of_cons; repeat split; try done; apply not_elem_of_nil. Qed.

(** ** Reachable worlds *)

Section Invariant.
Context {F : Type} `{FloatLaws F}.

(** One primary window, and one player (entity 1) whose rotation
    and scale are those [Transform::from_xyz] gave it. *)
Definition player_invariant (w : World F) : Prop :=
  (exists ew win, window_query w = {[ew := win]}) /\
  (exists t, player_query w = {[1 := t]} /\
             rotation t = Glam.Quat_IDENTITY /\ scale t = Glam.ONE).

Lemma update_system_preserves (s : SystemId) (w w' : World F) cs :
  s <> SpawnPlayer -> player_invariant w -> run_system s w = Done (w', cs) ->
  player_invariant w' /\ cs = [].
Proof.
  intros Hs [(ew & win & Hw) (t & Hp & Hr & Hsc)] Hrun.
  destruct s; [done | |]; simpl in Hrun.
  - destruct (move_player_result w 1 t Hp) as [v Hv].
    rewrite Hv in Hrun. injection Hrun as <- <-.
    split; [split; [by exists ew, win|] | done].
    exists (set_translation t v). by rewrite (player_query_update w 1 t).
  - destruct (confine_player_movement_result w ew win 1 t Hw Hp) as (v & Hv & _ & _).
    rewrite Hv in Hrun. injection Hrun as <- <-.
    split; [split; [by exists ew, win|] | done].
    exists (set_translation t v). by rewrite (player_query_update w 1 t).
Qed.

Lemma run_systems_preserves (ord : list SystemId) (w w' : World F) cs cs' :
  SpawnPlayer ∉ ord -> player_invariant w -> run_systems ord w cs = Done (w', cs') ->
  player_invariant w' /\ cs' = cs.
Proof.
  revert w cs. induction ord as [|s ord IH]; intros w cs Hn Hi Hrun; simpl in Hrun.
  - by injection Hrun as <- <-.
  - apply obind_done_inv in Hrun as ([w1 cs1] & Hs & Hrest).
    apply not_elem_of_cons in Hn as [Hs0 Hn].
    destruct (update_system_preserves s w w1 cs1) as [Hi1 ->]; auto.
    simpl in Hrest. rewrite app_nil_r in Hrest. eauto.
Qed.

Lemma player_invariant_env (w : World F) ws kb dt :
  dom ws = dom (windows w) -> player_invariant w ->
  player_invariant (set_resources (set_windows w ws) kb dt).
Proof.
  intros Hd [(ew & win & Hw) Hp]. split; [|exact Hp].
  destruct (query_with_same_dom (windows w) ws (primary_windows w) ew win)
    as [win' Hw']; [done | exact Hw |]. by exists ew, win'.
Qed.

Lemma frame_preserves app (w w' : World F) :
  SpawnPlayer ∉ update_systems app -> player_invariant w -> frame app w w' ->
  player_invariant w'.
Proof.
  intros Hn Hi Hf. destruct Hf as [w ws kb dt ord w' Hd [Hperm _] Hrun].
  unfold run_stage in Hrun. apply obind_done_inv in Hrun as ([w1 cs] & Hs & Hw').
  injection Hw' as <-.
  destruct (run_systems_preserves ord (set_resources (set_windows w ws) kb dt) w1 [] cs)
    as [Hi1 ->]; auto.
  - by rewrite Hperm.
  - by apply player_invariant_env.
Qed.
Lemma window_query_initial (win : Window F) kb dt :
  window_query (initial_world win kb dt) = {[0 := win]}.
Proof.
  unfold window_query, query_with. simpl.
  apply map_filter_singleton_True. simpl. set_solver.
Qed.

(** The world after the startup run: the spawned player and the window. *)
Lemma startup_world (win : Window F) kb dt :
  exists w, run_stage [SpawnPlayer] (initial_world win kb dt) = Done w
    /\ player_query w = {[1 := from_xyz (width win / f_lit 2)%F (height win / f_lit 2)%F (f_lit 0)]}
    /\ window_query w = {[0 := win]}
    /\ textures w !! 1 = Some "sprites/ball_blue_large.png"%string.
Proof.
  eexists. split.
  { unfold run_stage. simpl. unfold spawn_player.
    rewrite window_query_initial, get_single_singleton. reflexivity. }
  split; [|split].
  - unfold player_query, query_with. simpl. rewrite insert_empty.
    apply map_filter_singleton_True. simpl. set_solver.
  - apply window_query_initial.
  - simpl. apply lookup_insert_eq.
Qed.

(** C12: the startup run of the plugin spawns one player, entity 1, at
    [Transform::from_xyz(width / 2.0, height / 2.0, 0.0)] of the
    primary window, with the ball sprite; the rotation and scale are
    those of [Transform::IDENTITY]. *)
Theorem startup_spawns_player (win : Window F) kb dt :
  exists w t, run_stage (startup_systems (PlayerPlugin_build empty_app))
                        (initial_world win kb dt) = Done w
    /\ player_query w = {[1 := t]} /\ window_query w = {[0 := win]}
    /\ translation t = Glam.new (width win / f_lit 2)%F (height win / f_lit 2)%F (f_lit 0)
    /\ rotation t = Glam.Quat_IDENTITY /\ scale t = Glam.ONE
    /\ textures w !! 1 = Some "sprites/ball_blue_large.png"%string.
Proof.
  destruct (startup_world win kb dt) as (w & Hs & Hp & Hw & Ht).
  exists w, (from_xyz (width win / f_lit 2)%F (height win / f_lit 2)%F (f_lit 0)).
  repeat split; assumption.
Qed.

(** C6: every world an app reaches that starts with [spawn_player]
    alone and has no spawning update system keeps one primary window
    and exactly the one player, whose rotation and scale never change. *)
Theorem reachable_player_invariant app (w : World F) :
  startup_systems app = [SpawnPlayer] -> SpawnPlayer ∉ update_systems app ->
  reachable app w -> player_invariant w.
Proof.
  intros Hst Hn Hr. induction Hr as [win kb dt w Hs | w w' _ IH Hf].
  - destruct (startup_world win kb dt) as (w0 & Hs0 & Hp & Hw & _).
    rewrite Hst, Hs0 in Hs. injection Hs as <-.
    split; [eauto|]. eexists; split; [exact Hp|]. split; reflexivity.
  - eapply frame_preserves; eauto.
Qed.

(** A stage that runs the move and then the clamp ends with the
    player in the clamp rectangle whenever the window fits. *)
Lemma move_then_confine_in_bounds (w0 w' : World F) :
  player_invariant w0 -> run_stage [MovePlayer; ConfinePlayerMovement] w0 = Done w' ->
  exists ew win t, window_query w' = {[ew := win]} /\ player_query w' = {[1 := t]}
    /\ (window_fits win = true -> player_in_bounds win t = true).
Proof.
  intros [(ew & win & Hw) (t & Hp & _)] Hrun.
  apply run_stage_two in Hrun as (w1 & cs1 & w2 & cs2 & Hm & Hc & ->).
  destruct (move_player_result w0 1 t Hp) as [v Hv].
  change (run_system MovePlayer w0) with (move_player w0) in Hm.
  rewrite Hv in Hm. injection Hm as <- <-.
  set (w1 := set_transforms w0 (<[1 := set_translation t v]> (transforms w0))) in *.
  assert (Hp1 : player_query w1 = {[1 := set_translation t v]})
    by (apply player_query_update with t; exact Hp).
  destruct (confine_player_movement_result w1 ew win 1 (set_translation t v) Hw Hp1)
    as (v' & Hv' & _ & Hin).
  assert (Hc' : confine_player_movement w1 = Done (w2, cs2)) by exact Hc.
  rewrite Hv' in Hc'. injection Hc' as <- <-.
  exists ew, win, (set_translation (set_translation t v) v').
  split; [exact Hw|]. split; [|exact Hin].
  by apply player_query_update with (set_translation t v).
Qed.

(** The stage that runs the move and then the clamp, on a world with
    one primary window and one player: the move's new translation [v],
    clamped on x and y. *)
Lemma move_then_confine_exact (w0 : World F) ew win t :
  window_query w0 = {[ew := win]} -> player_query w0 = {[1 := t]} ->
  let d := direction_of (keyboard w0) in
  let v := Glam.add (translation t)
             (Glam.mul (velocity_of d) (delta_seconds w0)) in
  run_stage [MovePlayer; ConfinePlayerMovement] w0 =
    Done (set_transforms w0 (<[1 := set_translation t
      (Glam.new (confine_axis (Glam.x v) min_xy (max_xy win).1)
                (confine_axis (Glam.y v) min_xy (max_xy win).2) (Glam.z v))]> (transforms w0))).
Proof.
  intros Hw Hp d v. unfold run_stage. cbn [run_systems run_system].
  rewrite (move_player_exact w0 1 t Hp). cbn [obind fst snd].
  set (t1 := set_translation t v).
  pose proof (player_query_update w0 1 t t1 Hp) as Hp1.
  rewrite (confine_player_movement_exact (set_transforms w0 (<[1:=t1]> (transforms w0)))
             ew win 1 t1 (eq_trans (window_query_set_transforms w0 _) Hw) Hp1).
  cbn [obind fst snd app apply_commands foldl]. unfold set_transforms at 1. simpl.
  by rewrite insert_insert_eq.
Qed.

(** A chained frame from a world of the invariant writes the move of
    the player, clamped in the frame's window, with the frame's input
    and time. *)
Lemma chained_frame_exact (w w' : World F) t :
  player_invariant w -> player_query w = {[1 := t]} ->
  frame (PlayerPlugin_build_chained empty_app) w w' ->
  exists ew win, window_query w' = {[ew := win]} /\
    let d := direction_of (keyboard w') in
    let v := Glam.add (translation t)
               (Glam.mul (velocity_of d) (delta_seconds w')) in
    player_query w' = {[1 := set_translation t
      (Glam.new (confine_axis (Glam.x v) min_xy (max_xy win).1)
                (confine_axis (Glam.y v) min_xy (max_xy win).2) (Glam.z v))]}.
Proof.
  intros Hi Hp Hf. destruct Hf as [w ws kb dt ord w' Hd Hadm Hrun].
  apply PlayerPlugin_chained_admissible in Hadm as ->.
  pose proof (player_invariant_env w ws kb dt Hd Hi) as [(ew & win & Hw) _].
  assert (Hp0 : player_query (set_resources (set_windows w ws) kb dt) = {[1 := t]}) by exact Hp.
  rewrite (move_then_confine_exact _ ew win t Hw Hp0) in Hrun. apply Done_inj in Hrun. subst w'.
  exists ew, win. split; [exact Hw|]. exact (player_query_update _ 1 t _ Hp0).
Qed.

(** C1: when the clamp is ordered after the move, as the spec
    requires, every frame ends with the player in the clamp
    rectangle of the current window, whenever that window fits. *)
Theorem chained_frame_in_bounds (w w' : World F) :
  player_invariant w -> frame (PlayerPlugin_build_chained empty_app) w w' ->
  exists ew win t, window_query w' = {[ew := win]} /\ player_query w' = {[1 := t]}
    /\ (window_fits win = true -> player_in_bounds win t = true).
Proof.
  intros Hi Hf. destruct Hf as [w ws kb dt ord w' Hd Hadm Hrun].
  apply PlayerPlugin_chained_admissible in Hadm as ->.
  eapply move_then_confine_in_bounds; [|exact Hrun].
  by apply player_invariant_env.
Qed.
End Invariant.

End Schedule.
