(* ===== verification/Plugin.v ===== *)
(** * Bevy's [Plugin] trait and [PlayerPlugin]

    [player.rs] declares the unit struct [PlayerPlugin] (line 7) and
    implements the four methods of Bevy 0.10's [Plugin] trait for it
    (lines 8-26): [build] registers the three systems, [setup] does
    nothing, [name] is [std::any::type_name::<Self>()] and [is_unique]
    is [true].  The trait is the class [Plugin]; a [Box<dyn Plugin>]
    is its table of methods, [DynPlugin].  [App::add_plugin] refuses
    a unique plugin whose name was already added (the [HashSet]
    [plugin_name_added]), panicking with [AppError::DuplicatePlugin];
    otherwise it builds the plugin into the app and keeps it in the
    plugin registry.  The theorems characterise when [add_plugin]
    panics, show that the set of added names never holds a name twice,
    and that [PlayerPlugin], being unique, cannot be added twice.  A
    type name is modelled by the identity of the Rust type it names. *)

From S2P Require Import Prelude Float Glam Bevy Player Schedule.
From stdpp Require Import base list.
From Stdlib Require Import String.

Module Plugins.
Import Bevy Player Schedule.

(** The types whose [type_name] a plugin reports. *)
Inductive TypeName : Type :=
| PlayerPluginType
| OtherType (id : nat).

#[export] Instance TypeName_eq_dec : EqDecision TypeName.
Proof. solve_decision. Defined.

(** The [Plugin] trait of Bevy 0.10, as far as [player.rs] implements it. *)
Class Plugin (P : Type) := {
  build : P -> App -> App;
  setup : P -> App -> App;
  name : P -> TypeName;
  is_unique : P -> bool;
}.

(** [pub struct PlayerPlugin;] *)
Inductive PlayerPlugin : Type := PlayerPlugin_value.

(** [impl Plugin for PlayerPlugin] *)
#[export] Instance PlayerPlugin_Plugin : Plugin PlayerPlugin := {
  build := fun _ app => PlayerPlugin_build app;
  setup := fun _ app => app;
  name := fun _ => PlayerPluginType;
  is_unique := fun _ => true;
}.

(** [Box<dyn Plugin>]: the methods of one plugin value. *)
Record DynPlugin := {
  dyn_build : App -> App;
  dyn_setup : App -> App;
  dyn_name : TypeName;
  dyn_is_unique : bool;
}.

Definition boxed {P : Type} `{Plugin P} (p : P) : DynPlugin :=
  {| dyn_build := build p; dyn_setup := setup p; dyn_name := name p;
     dyn_is_unique := is_unique p |}.

(** An [App] with its plugin bookkeeping. *)
Record PluginApp := {
  schedule : App;
  plugin_name_added : list TypeName;
  plugin_registry : list DynPlugin;
}.

Definition new_app : PluginApp :=
  {| schedule := empty_app; plugin_name_added := []; plugin_registry := [] |}.

(** [AppError] *)
Inductive AppError : Type :=
| DuplicatePlugin (plugin_name : TypeName).

(** [App::add_boxed_plugin]: [plugin.is_unique() && !plugin_name_added.insert(name)]
    is an error; the name is inserted only when the plugin is unique. *)
Definition add_boxed_plugin (p : DynPlugin) (a : PluginApp) : result PluginApp AppError :=
  if dyn_is_unique p && bool_decide (dyn_name p ∈ plugin_name_added a)
  then Err (DuplicatePlugin (dyn_name p))
  else Ok {| schedule := dyn_build p (schedule a);
             plugin_name_added :=
               if dyn_is_unique p then dyn_name p :: plugin_name_added a
               else plugin_name_added a;
             plugin_registry := plugin_registry a ++ [p] |}.

(** [App::add_plugin]: the error is a panic. *)
Definition add_plugin {P : Type} `{Plugin P} (p : P) (a : PluginApp) : outcome PluginApp :=
  match add_boxed_plugin (boxed p) a with
  | Ok a' => Done a'
  | Err _ => Panic "Error adding plugin: plugin was already added in application"
  end.

(** ** Adding plugins *)

Section AddPlugin.
Context {P : Type} `{Plugin P}.

Lemma add_plugin_done (p : P) (a a' : PluginApp) :
  add_plugin p a = Done a' -> add_boxed_plugin (boxed p) a = Ok a'.
Proof. unfold add_plugin. destruct (add_boxed_plugin _ _); congruence. Qed.

(** [add_plugin] panics exactly when the plugin is unique and a
    plugin of the same name was already added. *)
Theorem add_plugin_panics_iff (p : P) (a : PluginApp) :
  (exists r, add_plugin p a = Panic r) <->
  is_unique p = true /\ name p ∈ plugin_name_added a.
Proof.
  unfold add_plugin, add_boxed_plugin; simpl.
  destruct (is_unique p), (decide (name p ∈ plugin_name_added a)) as [Hin|Hin];
    rewrite ?bool_decide_true, ?bool_decide_false by assumption; simpl;
    split; intros Hx; try destruct Hx as [r Hr]; try discriminate; try tauto; eauto.
Qed.

(** The set of added plugin names never holds a name twice
    (it is Bevy's [HashSet]), whatever plugins are added. *)
Theorem add_plugin_names_nodup (p : P) (a a' : PluginApp) :
  NoDup (plugin_name_added a) -> add_plugin p a = Done a' -> NoDup (plugin_name_added a').
Proof.
  intros Hnd Hadd. apply add_plugin_done in Hadd. unfold add_boxed_plugin in Hadd. simpl in Hadd.
  destruct (is_unique p) eqn:Hu; simpl in Hadd.
  - case_bool_decide as Hin; [discriminate|]. injection Hadd as <-. simpl.
    by constructor.
  - injection Hadd as <-. exact Hnd.
Qed.
End AddPlugin.

(** ** [App::new().add_plugin(PlayerPlugin)] *)

(** C21: [PlayerPlugin] is unique: adding it a second time panics. *)
Theorem add_PlayerPlugin_twice_panics (a a' : PluginApp) :
  add_plugin PlayerPlugin_value a = Done a' ->
  exists r, add_plugin PlayerPlugin_value a' = Panic r.
Proof.
  intros Hadd. apply add_plugin_done in Hadd. unfold add_boxed_plugin in Hadd. simpl in Hadd.
  case_bool_decide; [discriminate|]. injection Hadd as <-.
  apply add_plugin_panics_iff. split; [reflexivity | apply elem_of_cons; by left].
Qed.

(** ** At a concrete app *)

(** The app after [App::new().add_plugin(PlayerPlugin)]. *)
Definition player_app : PluginApp :=
  {| schedule := PlayerPlugin_build empty_app; plugin_name_added := [PlayerPluginType];
     plugin_registry := [boxed PlayerPlugin_value] |}.

Lemma add_PlayerPlugin_twice_panics_witness :
  exists r, add_plugin PlayerPlugin_value player_app = Panic r.
Proof. apply (add_PlayerPlugin_twice_panics new_app). reflexivity. Defined.

End Plugins.
