(* ===== verification/F32.v ===== *)
(** * Rust's [f32] as IEEE-754 binary32

    The instance of [Float] on the Standard Library's [SpecFloat]
    (the Flocq-derived specification of IEEE-754 arithmetic, no NaN
    payload) at precision 24 and maximal exponent 128, rounding to
    nearest, ties to even: the arithmetic of Rust's [f32].  With it
    every definition of the model computes, and the concrete runs of
    the systems below are evaluated by [vm_compute].  The order laws
    of [FloatLaws] are proved through an order-embedding of the
    non-NaN floats into lexicographically ordered triples of integers. *)

From S2P Require Import Prelude Float Glam Bevy Player Schedule.
From stdpp Require Import base list gmap.
From Stdlib Require Import ZArith Floats.SpecFloat String.

Module F32.

Definition prec : Z := 24.
Definition emax : Z := 128.

Abbreviation f32 := spec_float.

(** An integer literal, rounded to the nearest binary32 (exact for
    every literal of [player.rs]). *)
Definition lit (n : Z) : f32 := binary_normalize prec emax n 0 false.

Definition is_nan (a : f32) : bool :=
  match a with S754_nan => true | _ => false end.

#[export] Instance f32_Float : Float f32 := {
  f_lit := lit;
  f_add := SFadd prec emax;
  f_sub := SFsub prec emax;
  f_mul := SFmul prec emax;
  f_div := SFdiv prec emax;
  f_sqrt := SFsqrt prec emax;
  f_lt := SFltb;
  f_le := SFleb;
  f_is_nan := is_nan;
}.

(** ** The order of non-NaN floats *)

(** Position of a non-NaN float in the order [SFcompare] implements:
    its class (-2 for -inf, -1 negative, 0 zero, 1 positive, 2 +inf),
    then exponent and mantissa, reversed for negative numbers. *)
Definition key (a : f32) : Z * Z * Z :=
  match a with
  | S754_infinity true => (-2, 0, 0)
  | S754_finite true m e => (-1, - e, - Zpos m)
  | S754_zero _ | S754_nan => (0, 0, 0)
  | S754_finite false m e => (1, e, Zpos m)
  | S754_infinity false => (2, 0, 0)
  end%Z.

Definition key_compare (k1 k2 : Z * Z * Z) : comparison :=
  match Z.compare k1.1.1 k2.1.1 with
  | Eq => match Z.compare k1.1.2 k2.1.2 with
          | Eq => Z.compare k1.2 k2.2
          | c => c
          end
  | c => c
  end.

Lemma key_compare_lt_trans k1 k2 k3 :
  key_compare k1 k2 = Lt -> key_compare k2 k3 = Lt -> key_compare k1 k3 = Lt.
Proof.
  destruct k1 as [[a1 b1] c1], k2 as [[a2 b2] c2], k3 as [[a3 b3] c3].
  unfold key_compare; simpl.
  destruct (Z.compare_spec a1 a2), (Z.compare_spec a2 a3), (Z.compare_spec a1 a3);
    try congruence; try lia; subst;
  destruct (Z.compare_spec b1 b2), (Z.compare_spec b2 b3), (Z.compare_spec b1 b3);
    try congruence; try lia; subst;
  destruct (Z.compare_spec c1 c2), (Z.compare_spec c2 c3), (Z.compare_spec c1 c3);
    congruence || lia.
Qed.

Lemma key_compare_refl k : key_compare k k = Eq.
Proof. destruct k as [[a b] c]. unfold key_compare; simpl. by rewrite !Z.compare_refl. Qed.

Lemma key_compare_swap k1 k2 : key_compare k2 k1 = CompOpp (key_compare k1 k2).
Proof.
  destruct k1 as [[a1 b1] c1], k2 as [[a2 b2] c2]. unfold key_compare; simpl.
  rewrite (Z.compare_antisym a1 a2), (Z.compare_antisym b1 b2), (Z.compare_antisym c1 c2).
  by destruct (Z.compare a1 a2), (Z.compare b1 b2).
Qed.

Lemma SFcompare_key (a b : f32) :
  is_nan a = false -> is_nan b = false -> SFcompare a b = Some (key_compare (key a) (key b)).
Proof.
  intros Ha Hb.
  destruct a as [sa|sa| |sa ma ea], b as [sb|sb| |sb mb eb]; try discriminate;
    try destruct sa; try destruct sb; unfold key_compare; simpl; try reflexivity;
    rewrite ?Pos.compare_cont_spec; rewrite ?Z.compare_opp; try reflexivity.
  rewrite (Z.compare_antisym ea eb).
  by destruct (Z.compare ea eb), (Pos.compare ma mb).
Qed.

Lemma SFltb_key (a b : f32) :
  is_nan a = false -> is_nan b = false ->
  SFltb a b = match key_compare (key a) (key b) with Lt => true | _ => false end.
Proof. intros Ha Hb. unfold SFltb. by rewrite SFcompare_key. Qed.

#[export] Instance f32_FloatLaws : FloatLaws f32.
Proof.
  split; simpl.
  - intros a. destruct (is_nan a) eqn:Ha; [by destruct a|].
    by rewrite SFltb_key, key_compare_refl.
  - intros a b Ha. by destruct a.
  - intros a b Hb. destruct a, b; try discriminate; reflexivity.
  - intros a b Ha Hb. unfold SFleb. rewrite SFltb_key, !SFcompare_key by assumption.
    rewrite (key_compare_swap (key a)). by destruct (key_compare (key a) (key b)).
  - intros a b c Hab Hbc.
    destruct (is_nan a) eqn:Ha; [by destruct a|].
    destruct (is_nan b) eqn:Hb; [destruct b; try discriminate; by destruct a|].
    destruct (is_nan c) eqn:Hc; [destruct c; try discriminate; by destruct b|].
    rewrite SFltb_key in * by assumption.
    destruct (key_compare (key a) (key b)) eqn:E1; try discriminate.
    destruct (key_compare (key b) (key c)) eqn:E2; try discriminate.
    by rewrite (key_compare_lt_trans _ _ _ E1 E2).
Qed.

(** ** Concrete worlds *)

Import Bevy Player Schedule.

(** The 800 x 600 primary window of the spec's scenarios. *)
Definition win800 : Window f32 := {| width := lit 800; height := lit 600 |}.

Definition input (keys : list KeyCode) : Input := {| pressed_keys := keys |}.

(** The world after startup with the player at [(x, y, 0)]. *)
Definition world_at (x y : Z) (keys : list KeyCode) (dt : f32) : World f32 :=
  {| next_entity := 2;
     transforms := {[1 := from_xyz (lit x) (lit y) (lit 0)]};
     textures := {[1 := "sprites/ball_blue_large.png"%string]};
     windows := {[0 := win800]}; players := {[1]}; primary_windows := {[0]};
     keyboard := input keys; delta_seconds := dt |}.

(** One frame of [app] in the order [ord], with the given input and
    time, the window unchanged; [None] on a panic. *)
Definition run_frame (ord : list SystemId) (w : World f32) (keys : list KeyCode) (dt : f32)
    : option (World f32) :=
  match run_stage ord (set_resources (set_windows w (windows w)) (input keys) dt) with
  | Done w' => Some w'
  | Panic _ => None
  end.

Lemma run_frame_frame app ord (w w' : World f32) keys dt :
  admissible app ord -> run_frame ord w keys dt = Some w' -> frame app w w'.
Proof.
  unfold run_frame. intros Hadm Hr.
  destruct (run_stage ord _) as [w1|] eqn:Hs; [|discriminate]. injection Hr as <-.
  eapply frame_run; [reflexivity | exact Hadm | exact Hs].
Qed.

(** ** Moving without a direction *)

Definition is_finite (a : f32) : bool :=
  match a with S754_zero _ | S754_finite _ _ _ => true | _ => false end.

Lemma SFadd_zero_r (a : f32) sz :
  a <> S754_zero true -> SFadd prec emax a (S754_zero sz) = a.
Proof.
  intros Ha. destruct a as [sa|sa| |sa ma ea]; try reflexivity.
  destruct sa, sz; done.
Qed.

Lemma SFmul_zero_finite (dt : f32) :
  is_finite dt = true -> exists sz, SFmul prec emax (S754_zero false) dt = S754_zero sz.
Proof. destruct dt; try discriminate; eauto. Qed.

(** The step [move_player] adds for a zero direction. *)
Lemma zero_direction_step (dt : f32) :
  Glam.mul (velocity_of Glam.ZERO) dt
  = Glam.splat (SFmul prec emax (S754_zero false) dt).
Proof. reflexivity. Qed.

(** C9: on f32, when the held keys sum to the zero direction (no key,
    or opposite keys), [move_player] leaves the world unchanged for
    every finite [delta_seconds], provided no coordinate is [-0.0]
    (which [x + 0.0] would turn into [+0.0]). *)
Theorem move_player_zero_direction (w : World f32) e t :
  player_query w = {[e := t]} -> direction_of (keyboard w) = Glam.ZERO ->
  is_finite (delta_seconds w) = true ->
  Glam.x (translation t) <> S754_zero true -> Glam.y (translation t) <> S754_zero true ->
  Glam.z (translation t) <> S754_zero true ->
  move_player w = Done (w, []).
Proof.
  intros Hp Hd Hdt Hx Hy Hz. unfold move_player.
  rewrite (proj2 (get_single_ok _ e t) Hp), Hd, zero_direction_step.
  destruct (SFmul_zero_finite _ Hdt) as [sz ->].
  destruct (query_with_singleton_in _ _ _ _ Hp) as [_ Ht].
  destruct t as [[tx ty tz] rot sc]. unfold Glam.add, Glam.splat, Glam.new, set_translation; simpl in *.
  change (SFadd prec emax) with (@f_add f32 _).
  simpl. rewrite !SFadd_zero_r by assumption.
  rewrite insert_id by exact Ht. by rewrite set_transforms_id.
Qed.

(** ** The plugin as written lets the player out *)

(** C2: the plugin's schedule lets the player leave the clamp
    rectangle: after a frame that clamps the player to x = 768, a frame
    in which the executor runs the clamp first ends with x = 968 in an
    800-wide window, though the window fits. *)
Theorem plain_plugin_leaves_bounds :
  exists (w w' : World f32) t,
    reachable (PlayerPlugin_build empty_app) w /\ frame (PlayerPlugin_build empty_app) w w'
    /\ window_query w' = {[0 := win800]} /\ window_fits win800 = true
    /\ player_query w' = {[1 := t]} /\ player_in_bounds win800 t = false.
Proof.
  exists (world_at 768 300 [KeyCode.Right] (lit 2)), (world_at 968 300 [KeyCode.Right] (lit 1)),
    (from_xyz (lit 968) (lit 300) (lit 0)).
  split; [|split].
  - eapply reachable_frame.
    + apply (reachable_startup _ win800 (input []) (lit 0)). vm_compute. reflexivity.
    + apply (run_frame_frame _ [MovePlayer; ConfinePlayerMovement] _ _ [KeyCode.Right] (lit 2)).
      * by split.
      * vm_compute. reflexivity.
  - apply (run_frame_frame _ [ConfinePlayerMovement; MovePlayer] _ _ [KeyCode.Right] (lit 1)).
    + split; [apply perm_swap | reflexivity].
    + vm_compute. reflexivity.
  - vm_compute. repeat split; reflexivity.
Qed.

(** ** The theorems of [Player] and [Schedule] at concrete f32 inputs *)

(** Two entities marked [Player]: [get_single_mut] fails. *)
Definition world_two_players : World f32 :=
  {| next_entity := 3;
     transforms := {[1 := from_xyz (lit 100) (lit 100) (lit 0);
                     2 := from_xyz (lit 900) (lit 100) (lit 0)]};
     textures := ∅; windows := {[0 := win800]}; players := {[1; 2]};
     primary_windows := {[0]}; keyboard := input []; delta_seconds := lit 1 |}.

Lemma confine_player_movement_in_bounds_witness :
  exists t', confine_player_movement (world_at 968 300 [] (lit 0)) =
      Done (set_transforms (world_at 968 300 [] (lit 0))
              (<[1 := t']> (transforms (world_at 968 300 [] (lit 0)))), [])
    /\ player_in_bounds win800 t' = true
    /\ Glam.z (translation t') = lit 0
    /\ rotation t' = Glam.Quat_IDENTITY /\ scale t' = Glam.ONE.
Proof.
  apply (confine_player_movement_in_bounds (world_at 968 300 [] (lit 0)) 0 win800 1
           (from_xyz (lit 968) (lit 300) (lit 0))); vm_compute; reflexivity.
Defined.

Lemma confine_player_movement_idempotent_witness :
  confine_player_movement (world_at 768 300 [] (lit 0)) = Done (world_at 768 300 [] (lit 0), []).
Proof.
  apply (confine_player_movement_idempotent (world_at 780 300 [] (lit 0)) _ [] 0 win800);
    vm_compute; reflexivity.
Defined.

Lemma move_player_skips_witness :
  move_player (initial_world win800 (input [KeyCode.Right]) (lit 1))
  = Done (initial_world win800 (input [KeyCode.Right]) (lit 1), []).
Proof. apply move_player_skips. vm_compute. discriminate. Defined.

Lemma confine_player_movement_skips_witness :
  confine_player_movement world_two_players = Done (world_two_players, []).
Proof.
  apply (confine_player_movement_skips world_two_players 0 win800);
    vm_compute; [reflexivity | discriminate].
Defined.

Lemma move_player_same_held_witness :
  exists w1 w2, move_player (set_resources (world_at 400 300 [] (lit 0)) (input [KeyCode.Left]) (lit 1))
                = Done (w1, [])
    /\ move_player (set_resources (world_at 400 300 [] (lit 0)) (input [KeyCode.A]) (lit 1))
       = Done (w2, [])
    /\ transforms w1 = transforms w2.
Proof. apply move_player_same_held. vm_compute. reflexivity. Defined.

Lemma move_player_zero_direction_witness :
  move_player (world_at 400 300 [KeyCode.Left; KeyCode.Right] (lit 1))
  = Done (world_at 400 300 [KeyCode.Left; KeyCode.Right] (lit 1), []).
Proof.
  apply (move_player_zero_direction _ 1 (from_xyz (lit 400) (lit 300) (lit 0)));
    vm_compute; reflexivity || discriminate.
Defined.

Lemma confine_axis_degenerate_witness :
  confine_axis (lit 32) (lit 32) (lit 20) = lit 20 /\ confine_axis (lit 20) (lit 32) (lit 20) = lit 32.
Proof. apply confine_axis_degenerate. vm_compute. reflexivity. Defined.

Lemma confine_axis_nan_witness : confine_axis S754_nan (lit 32) (lit 768) = S754_nan.
Proof. apply confine_axis_nan. reflexivity. Defined.

Lemma player_invariant_world_at (x y : Z) keys dt : player_invariant (world_at x y keys dt).
Proof.
  split; [exists 0, win800 | exists (from_xyz (lit x) (lit y) (lit 0))]; vm_compute;
    repeat split; reflexivity.
Qed.

Lemma reachable_player_invariant_witness : player_invariant (world_at 600 300 [KeyCode.Right] (lit 1)).
Proof.
  apply (reachable_player_invariant (PlayerPlugin_build empty_app)); [reflexivity | vm_compute; set_solver |].
  eapply reachable_frame.
  - apply (reachable_startup _ win800 (input []) (lit 0)). vm_compute. reflexivity.
  - apply (run_frame_frame _ [MovePlayer; ConfinePlayerMovement] _ _ [KeyCode.Right] (lit 1));
      [by split | vm_compute; reflexivity].
Defined.

Lemma chained_frame_in_bounds_witness :
  exists ew win t, window_query (world_at 600 300 [KeyCode.Right] (lit 1)) = {[ew := win]}
    /\ player_query (world_at 600 300 [KeyCode.Right] (lit 1)) = {[1 := t]}
    /\ (window_fits win = true -> player_in_bounds win t = true).
Proof.
  apply (chained_frame_in_bounds (world_at 400 300 [] (lit 0))).
  - apply player_invariant_world_at.
  - apply (run_frame_frame _ [MovePlayer; ConfinePlayerMovement] _ _ [KeyCode.Right] (lit 1));
      [by split | vm_compute; reflexivity].
Defined.

End F32.
