(* ===== verification/F32Safety.v ===== *)
(** * Finiteness and speed on f32

    Rust's [f32] overflows to an infinity instead of wrapping or
    trapping, and [inf - inf], [0 * inf] are NaN.  This file follows
    the f32 values of one frame.  Rounding in binary32 never produces
    a NaN from finite operands, so the velocity [velocity_of] (one of
    nine computed values) times a finite [delta_seconds] is never NaN,
    and neither is the translation after the move.  The clamp of
    [confine_player_movement] sends any non-NaN coordinate, an infinity
    included, to a finite bound.  So with the clamp ordered after the
    move, every frame with a finite time keeps the player at finite
    coordinates inside the window, and over a run of chained frames
    ([finite_run]) the player stays finite by induction on the run.
    Bevy's [delta_seconds] comes from a [Duration], finite and below
    [2^64] s; the theorems assume only that it is finite.  The speed
    law reads the velocity's exact value ([to_Q], in the manner of
    Flocq's [B2R]): exactly [PLAYER_SPEED] on one axis, and on a
    diagonal equal to it up to the unit roundoff [2^-24]. *)

From S2P Require Import Prelude Float Glam Bevy Player Schedule F32.
From stdpp Require Import base list gmap.
From Stdlib Require Import ZArith QArith Qminmax Qabs Floats.SpecFloat.

Module F32Safety.
Import Bevy Player Schedule F32.

(** ** Rounding never yields NaN *)

Lemma shr_1_nonneg (mrs : shr_record) : (0 <= shr_m mrs)%Z -> (0 <= shr_m (shr_1 mrs))%Z.
Proof. destruct mrs as [[|[p|p|]|p] r s]; simpl; lia. Qed.

Lemma iter_shr_1_nonneg (p : positive) (mrs : shr_record) :
  (0 <= shr_m mrs)%Z -> (0 <= shr_m (iter_pos shr_1 p mrs))%Z.
Proof. revert mrs. induction p; intros mrs H; simpl; auto using shr_1_nonneg. Qed.

Lemma shr_record_of_loc_m (m : Z) (l : location) : shr_m (shr_record_of_loc m l) = m.
Proof. by destruct l as [|[]]. Qed.

Lemma shr_fexp_nonneg (m e : Z) (l : location) :
  (0 <= m)%Z -> (0 <= shr_m (shr_fexp prec emax m e l).1)%Z.
Proof.
  intros Hm. unfold shr_fexp, shr.
  destruct (fexp prec emax (Zdigits2 m + e) - e)%Z; simpl;
    [| apply iter_shr_1_nonneg |]; by rewrite shr_record_of_loc_m.
Qed.

Lemma round_nearest_even_nonneg (m : Z) (l : location) :
  (0 <= m)%Z -> (0 <= round_nearest_even m l)%Z.
Proof. intros Hm. destruct l as [|[]]; simpl; try destruct (Z.even m); lia. Qed.

Lemma binary_round_aux_not_nan sx (mx ex : Z) lx :
  (0 <= mx)%Z -> binary_round_aux prec emax sx mx ex lx <> S754_nan.
Proof.
  intros Hm. unfold binary_round_aux.
  pose proof (shr_fexp_nonneg mx ex lx Hm) as H1.
  destruct (shr_fexp prec emax mx ex lx) as [mrs' e']. simpl in H1.
  pose proof (shr_fexp_nonneg _ e' loc_Exact (round_nearest_even_nonneg _ (loc_of_shr_record mrs') H1))
    as H2.
  destruct (shr_fexp prec emax _ e' loc_Exact) as [mrs'' e'']. simpl in H2.
  destruct (shr_m mrs''); [done | by destruct (Z.leb e'' _) | lia].
Qed.

Lemma binary_normalize_not_nan (m e : Z) sz : binary_normalize prec emax m e sz <> S754_nan.
Proof.
  destruct m as [|m|m]; simpl; [done | |]; unfold binary_round;
    destruct (shl_align _ _ _); by apply binary_round_aux_not_nan.
Qed.

(** The product of two finite floats is finite or infinite. *)
Lemma SFmul_finite_not_nan (a b : f32) :
  is_finite a = true -> is_finite b = true -> is_nan (SFmul prec emax a b) = false.
Proof.
  intros Ha Hb. destruct a, b; try discriminate; simpl; try reflexivity.
  destruct (binary_round_aux _ _ _ _ _ _) eqn:E; try reflexivity.
  exfalso. revert E. apply binary_round_aux_not_nan. lia.
Qed.

(** A finite float plus a non-NaN float is not NaN. *)
Lemma SFadd_finite_not_nan (a b : f32) :
  is_finite a = true -> is_nan b = false -> is_nan (SFadd prec emax a b) = false.
Proof.
  intros Ha Hb. destruct a as [sa|sa| |sa ma ea], b as [sb|sb| |sb mb eb]; try discriminate;
    simpl; try destruct sa; try destruct sb; try reflexivity;
    destruct (binary_normalize _ _ _ _ _) eqn:E; try reflexivity;
    exfalso; exact (binary_normalize_not_nan _ _ _ E).
Qed.

Definition is_zero (a : f32) : bool :=
  match a with S754_zero _ => true | _ => false end.

Lemma SFadd_finite_zero (a b : f32) :
  is_finite a = true -> is_zero b = true -> is_finite (SFadd prec emax a b) = true.
Proof.
  intros Ha Hb. destruct b as [sb| | |]; try discriminate.
  destruct a as [sa|sa| |sa ma ea]; try discriminate; by destruct sa, sb.
Qed.

Lemma SFmul_zero_finite_zero (a b : f32) :
  is_zero a = true -> is_finite b = true -> is_zero (SFmul prec emax a b) = true.
Proof. intros Ha Hb. destruct a, b; try discriminate; reflexivity. Qed.

(** ** The velocity of [move_player] *)

(** The velocity [velocity_of], lines 69-73 before the multiplication
    by [delta_seconds]: for each of the sixteen
    combinations of held directions its x and y are finite and its z
    is zero (computed). *)
Lemma velocity_finite (kb : Input) :
  let d := direction_of kb in
  let u := velocity_of d in
  is_finite (Glam.x u) = true /\ is_finite (Glam.y u) = true /\ is_zero (Glam.z u) = true.
Proof.
  unfold direction_of.
  destruct (pressed kb KeyCode.Left || pressed kb KeyCode.A),
    (pressed kb KeyCode.Right || pressed kb KeyCode.D),
    (pressed kb KeyCode.Up || pressed kb KeyCode.W),
    (pressed kb KeyCode.Down || pressed kb KeyCode.S); vm_compute; auto.
Qed.

(** ** The speed of [move_player] on f32 *)

Open Scope Q_scope.

(** The exact value of a finite float, [+/- m * 2^e]; the infinities
    and NaN are sent to [0] (the speed law asks for finiteness apart). *)
Definition to_Q (a : f32) : Q :=
  match a with
  | S754_finite s m e => (if s then - (Zpos m # 1) else Zpos m # 1) * Qpower 2 e
  | _ => 0
  end.

(** The unit roundoff of binary32, [2^-24]. *)
Definition u32 : Q := Qpower 2 (-24).

(** The velocity [move_player] moves at under the input [kb]. *)
Definition move_velocity (kb : Input) : Glam.Vec3 f32 := velocity_of (direction_of kb).

(** The sign the keys give one axis: [1] for the positive direction,
    [-1] for the negative one, [0] when both or neither are held. *)
Definition axis (neg pos : bool) : Z := (Z.b2z pos - Z.b2z neg)%Z.

Definition axis_x (kb : Input) : Z := axis (held kb KeyCode.Left KeyCode.A) (held kb KeyCode.Right KeyCode.D).
Definition axis_y (kb : Input) : Z := axis (held kb KeyCode.Down KeyCode.S) (held kb KeyCode.Up KeyCode.W).

(** The speed the velocity moves at on each moving axis. *)
Definition axis_speed (kb : Input) : Q :=
  if (axis_x kb =? 0)%Z && (axis_y kb =? 0)%Z then 200
  else Qmax (Qabs (to_Q (Glam.x (move_velocity kb)))) (Qabs (to_Q (Glam.y (move_velocity kb)))).

(** The speed law as a decidable check on one input; it is computed
    for each of the sixteen combinations of held directions. *)
Definition speed_check (kb : Input) : bool :=
  let v := move_velocity kb in
  let s := axis_speed kb in
  is_finite (Glam.x v) && is_finite (Glam.y v) && is_zero (Glam.z v)
  && Qeq_bool (to_Q (Glam.x v)) (inject_Z (axis_x kb) * s)
  && Qeq_bool (to_Q (Glam.y v)) (inject_Z (axis_y kb) * s)
  && (if (axis_x kb * axis_y kb =? 0)%Z then Qeq_bool s 200
      else Qle_bool (Qabs (2 * s ^ 2 - 200 ^ 2)) (200 ^ 2 * u32)).

(** C8: the speed law of [move_player] on binary32: with one player,
    the move adds [v * delta_seconds] (each product rounded), where the
    velocity [v] is finite, has zero depth, and points along the held
    directions: [x = sx * s] and [y = sy * s] for the signs [sx], [sy]
    of the held keys and one speed [s].  On a single axis [s] is
    exactly [PLAYER_SPEED = 200]; on a diagonal the normalisation makes
    the speed [sqrt (2 s^2)] equal to [200] up to [200^2] times the
    unit roundoff [2^-24] in its square, not [200 * sqrt 2]. *)
Theorem move_player_speed (w : World f32) e t :
  player_query w = {[e := t]} ->
  let kb := keyboard w in
  exists v s, move_player w = Done (set_transforms w (<[e := set_translation t
                 (Glam.add (translation t) (Glam.mul v (delta_seconds w)))]> (transforms w)), [])
    /\ is_finite (Glam.x v) = true /\ is_finite (Glam.y v) = true /\ is_zero (Glam.z v) = true
    /\ to_Q (Glam.x v) == inject_Z (axis_x kb) * s /\ to_Q (Glam.y v) == inject_Z (axis_y kb) * s
    /\ ((axis_x kb * axis_y kb = 0)%Z -> s == 200)
    /\ ((axis_x kb * axis_y kb <> 0)%Z -> Qabs (2 * s ^ 2 - 200 ^ 2) <= 200 ^ 2 * u32).
Proof.
  intros Hp kb. exists (move_velocity kb), (axis_speed kb).
  split; [unfold move_player; by rewrite (proj2 (get_single_ok _ e t) Hp)|].
  assert (Hc : speed_check kb = true).
  { unfold speed_check, axis_speed, axis_x, axis_y, move_velocity, velocity_of, held, direction_of.
    destruct (pressed kb KeyCode.Left || pressed kb KeyCode.A),
      (pressed kb KeyCode.Right || pressed kb KeyCode.D),
      (pressed kb KeyCode.Up || pressed kb KeyCode.W),
      (pressed kb KeyCode.Down || pressed kb KeyCode.S); vm_compute; reflexivity. }
  unfold speed_check in Hc.
  rewrite !andb_true_iff, !Qeq_bool_iff in Hc. destruct Hc as (((((Hx & Hy) & Hz) & Hqx) & Hqy) & Hs).
  split_and!; try assumption.
  - intros H0. rewrite H0 in Hs. by apply Qeq_bool_iff.
  - intros H0. apply Z.eqb_neq in H0. rewrite H0 in Hs. by apply Qle_bool_iff.
Qed.

Close Scope Q_scope.

(** ** The clamp brings infinities back *)

(** [confine_axis] with finite bounds sends every non-NaN coordinate,
    [+inf] and [-inf] included, to a finite one. *)
Lemma confine_axis_finite (v lo hi : f32) :
  is_nan v = false -> is_finite lo = true -> is_finite hi = true ->
  is_finite (confine_axis v lo hi) = true.
Proof.
  intros Hv Hlo Hhi. unfold confine_axis. simpl.
  destruct (is_finite v) eqn:Hf.
  - by destruct (SFltb v lo), (SFltb hi v).
  - destruct v as [[]|[]| |]; try discriminate;
      destruct lo as [[]|[]| |], hi as [[]|[]| |]; try discriminate; reflexivity.
Qed.

Definition finite_translation (t : Transform f32) : bool :=
  is_finite (Glam.x (translation t)) && is_finite (Glam.y (translation t))
  && is_finite (Glam.z (translation t)).

Lemma min_xy_finite : is_finite min_xy = true.
Proof. reflexivity. Qed.

(** One coordinate after the move and the clamp, from a finite one. *)
Lemma move_confine_axis_finite (a u dt lo hi : f32) :
  is_finite a = true -> is_finite u = true -> is_finite dt = true ->
  is_finite lo = true -> is_finite hi = true ->
  is_finite (confine_axis (SFadd prec emax a (SFmul prec emax u dt)) lo hi) = true.
Proof.
  intros Ha Hu Hdt Hlo Hhi. apply confine_axis_finite; [|assumption..].
  by apply SFadd_finite_not_nan, SFmul_finite_not_nan.
Qed.

(** ** A chained frame on f32 *)

(** The transform a chained frame writes is at finite coordinates when
    the old one, the time and the window's bounds are finite. *)
Lemma confined_move_finite (t : Transform f32) (kb : Input) (dt : f32) (win : Window f32) :
  finite_translation t = true -> is_finite dt = true ->
  is_finite (max_xy win).1 = true -> is_finite (max_xy win).2 = true ->
  let d := direction_of kb in
  let v := Glam.add (translation t)
             (Glam.mul (velocity_of d) dt) in
  finite_translation (set_translation t
    (Glam.new (confine_axis (Glam.x v) min_xy (max_xy win).1)
              (confine_axis (Glam.y v) min_xy (max_xy win).2) (Glam.z v))) = true.
Proof.
  intros Hfin Hdt Hmx Hmy. destruct (velocity_finite kb) as (Hux & Huy & Huz).
  apply andb_true_iff in Hfin as [Hfin Hz]. apply andb_true_iff in Hfin as [Hx Hy].
  unfold finite_translation. cbn [translation set_translation Glam.x Glam.y Glam.z Glam.new].
  rewrite !andb_true_iff. split; [split|].
  - apply move_confine_axis_finite; auto using min_xy_finite.
  - apply move_confine_axis_finite; auto using min_xy_finite.
  - apply SFadd_finite_zero; [exact Hz|]. by apply SFmul_zero_finite_zero.
Qed.

(** C4: the chained schedule keeps the player finite on f32: from a
    world with one window and one player at finite coordinates, a
    frame with the clamp after the move and any finite
    [delta_seconds] ends with the player at finite coordinates (no
    NaN from the rounding, the length guard or the clamp), inside the
    clamp rectangle whenever the window fits, for every window whose
    bounds [width - 32] and [height - 32] are finite.  Bevy's frame
    time is finite and below [2^64] s; the theorem needs only
    finiteness, so it covers an overflowing product as well. *)
Theorem chained_frame_finite (w w' : World f32) t :
  player_invariant w -> player_query w = {[1 := t]} -> finite_translation t = true ->
  frame (PlayerPlugin_build_chained empty_app) w w' -> is_finite (delta_seconds w') = true ->
  exists ew win t', window_query w' = {[ew := win]} /\ player_query w' = {[1 := t']}
    /\ (is_finite (max_xy win).1 = true -> is_finite (max_xy win).2 = true ->
        finite_translation t' = true
        /\ (window_fits win = true -> player_in_bounds win t' = true)).
Proof.
  intros Hi Hp Hfin Hf Hdt.
  destruct (chained_frame_exact w w' t Hi Hp Hf) as (ew & win & Hw & Hp').
  eexists ew, win, _. split; [exact Hw|]. split; [exact Hp'|].
  intros Hmx Hmy. split; [by apply confined_move_finite|].
  intros Hfit. apply andb_true_iff in Hfit as [Hfx Hfy]. apply negb_true_iff in Hfx, Hfy.
  unfold player_in_bounds. cbn [translation set_translation Glam.x Glam.y Glam.new].
  by rewrite !confine_axis_in_range.
Qed.

(** ** Runs of chained frames on f32 *)

(** The window bounds [width - 32] and [height - 32] are finite. *)
Definition finite_bounds (win : Window f32) : bool :=
  is_finite (max_xy win).1 && is_finite (max_xy win).2.

(** A run of chained frames, each with a finite time and windows whose
    clamp bounds are finite. *)
Inductive finite_run : World f32 -> World f32 -> Prop :=
| finite_run_nil w : finite_run w w
| finite_run_cons w w1 w' :
    frame (PlayerPlugin_build_chained empty_app) w w1 ->
    is_finite (delta_seconds w1) = true ->
    map_Forall (fun _ win => finite_bounds win = true) (windows w1) ->
    finite_run w1 w' -> finite_run w w'.

(** C7: the f32 invariant of the chained schedule: along any run of
    chained frames with finite times and finite window bounds, from a
    world with one window and one player at finite coordinates, the
    world keeps one window and one player, and the player's
    coordinates stay finite from frame to frame. *)
Theorem chained_run_finite (w w' : World f32) t :
  player_invariant w -> player_query w = {[1 := t]} -> finite_translation t = true ->
  finite_run w w' ->
  player_invariant w' /\ exists t', player_query w' = {[1 := t']} /\ finite_translation t' = true.
Proof.
  intros Hi Hp Hfin Hr. revert t Hi Hp Hfin.
  induction Hr as [w | w w1 w' Hf Hdt Hwin Hr IH]; intros t Hi Hp Hfin; [eauto|].
  pose proof (frame_preserves _ w w1 (proj2 PlayerPlugin_no_spawn) Hi Hf) as Hi1.
  destruct (chained_frame_exact w w1 t Hi Hp Hf) as (ew & win & Hw & Hp1).
  destruct (query_with_singleton_in _ _ _ _ Hw) as [_ Hew].
  specialize (Hwin ew win Hew). apply andb_true_iff in Hwin as [Hmx Hmy].
  eapply IH; [exact Hi1 | exact Hp1 | by apply confined_move_finite].
Qed.

(** ** At concrete inputs *)

(** One chained frame holding Right for [dt], the windows unchanged. *)
Definition chained_right (w : World f32) (dt : f32) : World f32 :=
  match run_frame [MovePlayer; ConfinePlayerMovement] w [KeyCode.Right] dt with
  | Some w' => w'
  | None => w
  end.

Lemma chained_right_frame (w : World f32) (dt : f32) :
  run_frame [MovePlayer; ConfinePlayerMovement] w [KeyCode.Right] dt = Some (chained_right w dt) ->
  frame (PlayerPlugin_build_chained empty_app) w (chained_right w dt).
Proof. apply run_frame_frame. by split. Qed.

(** A 2 s hitch from the centre of the 800 x 600 window: the move
    overshoots to [x = 800], the clamp brings the player back to 768. *)
Lemma chained_frame_finite_witness :
  exists ew win t', window_query (chained_right (world_at 400 300 [] (lit 0)) (lit 2)) = {[ew := win]}
    /\ player_query (chained_right (world_at 400 300 [] (lit 0)) (lit 2)) = {[1 := t']}
    /\ (is_finite (max_xy win).1 = true -> is_finite (max_xy win).2 = true ->
        finite_translation t' = true
        /\ (window_fits win = true -> player_in_bounds win t' = true)).
Proof.
  apply (chained_frame_finite (world_at 400 300 [] (lit 0)) _ (from_xyz (lit 400) (lit 300) (lit 0)));
    [apply player_invariant_world_at | reflexivity | reflexivity | | vm_compute; reflexivity].
  apply chained_right_frame. vm_compute. reflexivity.
Defined.

(** The 2 s hitch, then a 1 s frame, both holding Right. *)
Definition two_frames : World f32 :=
  chained_right (chained_right (world_at 400 300 [] (lit 0)) (lit 2)) (lit 1).

Lemma chained_run_finite_witness :
  player_invariant two_frames
  /\ exists t', player_query two_frames = {[1 := t']} /\ finite_translation t' = true.
Proof.
  apply (chained_run_finite (world_at 400 300 [] (lit 0)) _ (from_xyz (lit 400) (lit 300) (lit 0)));
    [apply player_invariant_world_at | reflexivity | reflexivity |].
  apply (finite_run_cons _ (chained_right (world_at 400 300 [] (lit 0)) (lit 2)));
    [apply chained_right_frame; vm_compute; reflexivity | vm_compute; reflexivity
    | apply (bool_decide_unpack _); vm_compute; reflexivity |].
  apply (finite_run_cons _ two_frames);
    [apply chained_right_frame; vm_compute; reflexivity | vm_compute; reflexivity
    | apply (bool_decide_unpack _); vm_compute; reflexivity | apply finite_run_nil].
Defined.

(** Holding Up and Right from the centre for 1 s: the diagonal case. *)
Definition world_diag : World f32 := world_at 400 300 [KeyCode.Right; KeyCode.Up] (lit 1).

Lemma move_player_speed_witness :
  let kb := keyboard world_diag in
  exists v s, move_player world_diag = Done (set_transforms world_diag (<[1 := set_translation
                 (from_xyz (lit 400) (lit 300) (lit 0))
                 (Glam.add (translation (from_xyz (lit 400) (lit 300) (lit 0)))
                    (Glam.mul v (delta_seconds world_diag)))]> (transforms world_diag)), [])
    /\ is_finite (Glam.x v) = true /\ is_finite (Glam.y v) = true /\ is_zero (Glam.z v) = true
    /\ (to_Q (Glam.x v) == inject_Z (axis_x kb) * s)%Q /\ (to_Q (Glam.y v) == inject_Z (axis_y kb) * s)%Q
    /\ ((axis_x kb * axis_y kb = 0)%Z -> (s == 200)%Q)
    /\ ((axis_x kb * axis_y kb <> 0)%Z -> (Qabs (2 * s ^ 2 - 200 ^ 2) <= 200 ^ 2 * u32)%Q).
Proof. apply (move_player_speed world_diag 1 (from_xyz (lit 400) (lit 300) (lit 0))). reflexivity. Defined.

End F32Safety.
