(* ===== verification/F32Equiv.v ===== *)
(** * f32 equality up to the sign of zero

    IEEE-754 has two zeros that compare equal ([+0.0 == -0.0] in Rust)
    but are different bit patterns.  [x + 0.0] turns [-0.0] into
    [+0.0], so the f32 no-input law of [move_player] holds only up to
    that difference.  This file declares the equivalence "the same
    float, or both zeros" as stdpp's [Equiv] on [f32], lifts it to
    vectors, transforms and component storages (stdpp's [≡] on
    [gmap]), proves that [f32] addition and multiplication, the
    comparisons and [confine_axis] respect it ([Proper] instances),
    and proves the no-input law of [move_player] up to [≡] for every
    finite [delta_seconds], without the sign proviso of
    [F32.move_player_zero_direction]. *)

From S2P Require Import Prelude Float Glam Bevy Player Schedule F32 F32Safety.
From stdpp Require Import base list gmap.
From Stdlib Require Import ZArith Floats.SpecFloat.

Module F32Equiv.
Import Bevy Player Schedule F32 F32Safety.

(** ** The equivalence *)

#[export] Instance f32_equiv : Equiv f32 :=
  fun a b => a = b \/ (is_zero a = true /\ is_zero b = true).

#[export] Instance f32_equivalence : Equivalence (≡@{f32}).
Proof.
  split.
  - intros a. by left.
  - intros a b [->|[Ha Hb]]; [by left | by right].
  - intros a b c [->|[Ha Hb]] [<-|[Hb' Hc]]; [by left | by right | by right | by right].
Qed.

Lemma zero_equiv (s1 s2 : bool) : S754_zero s1 ≡ S754_zero s2.
Proof. by right. Qed.

Lemma f32_equiv_cases (a b : f32) :
  a ≡ b -> a = b \/ exists s1 s2, a = S754_zero s1 /\ b = S754_zero s2.
Proof.
  intros [->|[Ha Hb]]; [by left | right].
  destruct a, b; try discriminate. eauto.
Qed.

(** Case on the equivalences of the context: equal, or both zeros. *)
Ltac equiv_cases :=
  repeat match goal with
  | H : _ ≡@{f32} _ |- _ =>
      let s1 := fresh "s" in let s2 := fresh "s" in
      apply f32_equiv_cases in H as [<- | (s1 & s2 & -> & ->)]
  end.

(** ** The operations respect it *)

#[export] Instance SFadd_proper : Proper ((≡) ==> (≡) ==> (≡)) (SFadd prec emax).
Proof.
  intros a a' Ha b b' Hb. equiv_cases; try reflexivity;
    repeat match goal with s : bool |- _ => destruct s end;
    try destruct a; try destruct b; try destruct s; simpl; try reflexivity; apply zero_equiv.
Qed.

#[export] Instance SFmul_proper : Proper ((≡) ==> (≡) ==> (≡)) (SFmul prec emax).
Proof.
  intros a a' Ha b b' Hb. equiv_cases; try reflexivity;
    repeat match goal with s : bool |- _ => destruct s end;
    try destruct a; try destruct b; try destruct s; simpl; try reflexivity; apply zero_equiv.
Qed.

#[export] Instance SFltb_proper : Proper ((≡) ==> (≡) ==> (=)) SFltb.
Proof.
  intros a a' Ha b b' Hb. equiv_cases; try reflexivity;
    repeat match goal with s : bool |- _ => destruct s end;
    try destruct a; try destruct b; reflexivity.
Qed.

#[export] Instance confine_axis_proper : Proper ((≡) ==> (≡) ==> (≡) ==> (≡)) (@confine_axis f32 _).
Proof.
  intros v v' Hv lo lo' Hlo hi hi' Hhi. unfold confine_axis. simpl.
  rewrite (SFltb_proper v v' Hv lo lo' Hlo), (SFltb_proper hi hi' Hhi v v' Hv).
  by destruct (SFltb v' lo'), (SFltb hi' v').
Qed.

Lemma SFadd_zero_equiv (a : f32) (s : bool) : SFadd prec emax a (S754_zero s) ≡ a.
Proof. destruct a as [sa|sa| |]; try destruct sa; destruct s; simpl; reflexivity || apply zero_equiv. Qed.

(** ** Vectors, transforms and storages *)

#[export] Instance Vec3_equiv : Equiv (Glam.Vec3 f32) :=
  fun u v => Glam.x u ≡ Glam.x v /\ Glam.y u ≡ Glam.y v /\ Glam.z u ≡ Glam.z v.

#[export] Instance Vec3_equivalence : Equivalence (≡@{Glam.Vec3 f32}).
Proof.
  split.
  - intros u. split_and!; reflexivity.
  - intros u v (Hx & Hy & Hz). split_and!; by symmetry.
  - intros u v w' (Hx & Hy & Hz) (Hx' & Hy' & Hz'). split_and!; etrans; eauto.
Qed.

(** Two transforms at the same place up to the sign of zero. *)
#[export] Instance Transform_equiv : Equiv (Transform f32) :=
  fun t1 t2 => translation t1 ≡ translation t2 /\ rotation t1 = rotation t2 /\ scale t1 = scale t2.

#[export] Instance Transform_equivalence : Equivalence (≡@{Transform f32}).
Proof.
  split.
  - intros t. split_and!; reflexivity.
  - intros t1 t2 (Ht & Hr & Hs). split_and!; by symmetry.
  - intros t1 t2 t3 (Ht & Hr & Hs) (Ht' & Hr' & Hs'). split_and!; etrans; eauto.
Qed.

(** The move with the zero direction and a finite time, up to [≡]. *)
Lemma zero_move_equiv (kb : Input) (tr : Glam.Vec3 f32) (dt : f32) :
  direction_of kb = Glam.ZERO -> is_finite dt = true ->
  Glam.add tr (Glam.mul (velocity_of (direction_of kb)) dt) ≡ tr.
Proof.
  intros Hd Hdt. rewrite Hd, zero_direction_step.
  destruct (SFmul_zero_finite _ Hdt) as [sz ->].
  destruct tr as [tx ty tz]. split_and!; apply SFadd_zero_equiv.
Qed.

(** C11: the f32 no-input law: when the held keys sum to the zero
    direction, [move_player] with any finite [delta_seconds] writes a
    transform storage equivalent to the old one: every coordinate is
    unchanged up to the sign of a zero ([-0.0 + 0.0 = +0.0]). *)
Theorem move_player_zero_direction_equiv (w : World f32) :
  direction_of (keyboard w) = Glam.ZERO -> is_finite (delta_seconds w) = true ->
  exists m, move_player w = Done (set_transforms w m, []) /\ m ≡ transforms w.
Proof.
  intros Hd Hdt. unfold move_player.
  destruct (get_single (player_query w)) as [[e t]|err] eqn:Hp.
  - apply get_single_ok, query_with_singleton_in in Hp as [_ Ht].
    eexists. split; [reflexivity|].
    transitivity (<[e := t]> (transforms w)); [|by rewrite insert_id].
    f_equiv. split; [|split; reflexivity]. by apply zero_move_equiv.
  - exists (transforms w). split; [by rewrite set_transforms_id | reflexivity].
Qed.

(** The player at [(-0.0, 300, 0)] with Left and Right held. *)
Definition world_neg_zero : World f32 :=
  set_transforms (world_at 400 300 [KeyCode.Left; KeyCode.Right] (lit 1))
    {[1 := from_xyz (S754_zero true) (lit 300) (lit 0)]}.

Lemma move_player_zero_direction_equiv_witness :
  exists m, move_player world_neg_zero = Done (set_transforms world_neg_zero m, [])
    /\ m ≡ transforms world_neg_zero.
Proof. apply move_player_zero_direction_equiv; vm_compute; reflexivity. Defined.

End F32Equiv.
