(* ===== verification/RealModel.v ===== *)
(** * The player code over the real numbers

    The instance of [Float] on the Standard Library's reals: exact
    arithmetic, [sqrt] the real square root, no NaN, the order of [R]
    decided by [Rlt_dec] and [Rle_dec].  It is the arithmetic the
    spec's Boundary Clamp is stated in.  Only [confine_player_movement]
    is read through it ([Refinement]): the clamp compares and assigns
    and never rounds, so what it does over [R] it does on every
    non-NaN f32.  The moves are not: over [R] their laws would hold
    exactly where the f32 code rounds, so they are stated on binary32
    ([F32], [F32Safety], [F32Equiv]). *)

From S2P Require Import Prelude Float Glam Bevy Player Schedule.
From stdpp Require Import base list gmap.
From Stdlib Require Import Reals Lra.

Module RealModel.
Import Bevy Player Schedule.

Definition Rltb (a b : R) : bool := if Rlt_dec a b then true else false.
Definition Rleb (a b : R) : bool := if Rle_dec a b then true else false.

#[export] Instance R_Float : Float R := {
  f_lit := IZR;
  f_add := Rplus;
  f_sub := Rminus;
  f_mul := Rmult;
  f_div := Rdiv;
  f_sqrt := sqrt;
  f_lt := Rltb;
  f_le := Rleb;
  f_is_nan := fun _ => false;
}.

Lemma Rltb_spec (a b : R) : Rltb a b = true <-> (a < b)%R.
Proof. unfold Rltb. destruct (Rlt_dec a b); split; congruence || done. Qed.

Lemma Rltb_false (a b : R) : Rltb a b = false <-> (b <= a)%R.
Proof. unfold Rltb. destruct (Rlt_dec a b); split; intros; try discriminate; lra. Qed.

#[export] Instance R_FloatLaws : FloatLaws R.
Proof.
  split; simpl.
  - intros a. apply Rltb_false. lra.
  - discriminate.
  - discriminate.
  - intros a b _ _. unfold Rleb, Rltb.
    destruct (Rle_dec a b), (Rlt_dec b a); simpl; try reflexivity; lra.
  - intros a b c Hab Hbc. apply Rltb_spec in Hab, Hbc. apply Rltb_spec. lra.
Qed.

(** ** A concrete world over the reals *)

Open Scope R_scope.

Definition rwin : Window R := {| width := 800; height := 600 |}.

(** The player at (400, 300, 0) in an 800 x 600 window. *)
Definition rworld (keys : list KeyCode) (dt : R) : World R :=
  {| next_entity := 2%nat;
     transforms := {[1%nat := from_xyz 400 300 0]};
     textures := ∅; windows := {[0%nat := rwin]}; players := {[1%nat]};
     primary_windows := {[0%nat]}; keyboard := {| pressed_keys := keys |};
     delta_seconds := dt |}.

End RealModel.
