(* ===== verification/Refinement.v ===== *)
(** * The clamp refines the spec's Boundary Clamp

    The spec states the clamp abstractly: a position [(x, y)] and a
    depth, and [x <- clamp(x, Radius, width - Radius)], the same for
    [y], with [clamp(v, lo, hi) = max(lo, min(v, hi))].  Module [Spec]
    writes that step on the reals, with [Rmax] and [Rmin].  The
    theorem shows that [confine_player_movement], whose if/else-if
    chain only compares and assigns, computes exactly the spec's clamp
    of the player's translation (read through [to_pos]) in a window at
    least [2 * PLAYER_RADIUS] wide and high, keeping rotation and
    scale.  A comparison-and-assignment chain does the same on every
    non-NaN f32, so this is not a fact of exact arithmetic only. *)

From S2P Require Import Prelude Float Glam Bevy Player Schedule RealModel.
From stdpp Require Import base list gmap.
From Stdlib Require Import Reals Lra.

Module Refinement.
Import Bevy Player Schedule RealModel.

Open Scope R_scope.

(** ** The spec's Boundary Clamp *)

Module Spec.

(** The entity position: [(x, y)] and a depth that never changes. *)
Record Pos := { px : R; py : R; pz : R }.

Definition RADIUS : R := 32.

Definition clamp (lo hi v : R) : R := Rmax lo (Rmin v hi).

(** Boundary Clamp. *)
Definition confine (p : Pos) (W H : R) : Pos :=
  {| px := clamp RADIUS (W - RADIUS) (px p); py := clamp RADIUS (H - RADIUS) (py p);
     pz := pz p |}.

End Spec.

(** ** Abstraction of a world *)

Definition to_pos (v : Glam.Vec3 R) : Spec.Pos :=
  {| Spec.px := Glam.x v; Spec.py := Glam.y v; Spec.pz := Glam.z v |}.

(** ** The code's pieces against the spec's *)

Lemma confine_axis_clamp (lo hi v : R) :
  lo <= hi -> confine_axis v lo hi = Spec.clamp lo hi v.
Proof.
  intros Hle. unfold confine_axis, Spec.clamp, Rmax, Rmin. simpl. unfold Rltb.
  destruct (Rlt_dec v lo), (Rlt_dec hi v); simpl;
    repeat destruct Rle_dec; simpl; lra.
Qed.

(** The code's clamp, seen through [to_pos], is the spec's clamp when
    the window is at least [2 * PLAYER_RADIUS] wide and high. *)
Lemma to_pos_confine (v : Glam.Vec3 R) (win : Window R) :
  64 <= width win -> 64 <= height win ->
  to_pos (Glam.new (confine_axis (Glam.x v) min_xy (max_xy win).1)
                   (confine_axis (Glam.y v) min_xy (max_xy win).2) (Glam.z v))
  = Spec.confine (to_pos v) (width win) (height win).
Proof.
  intros Hw Hh. unfold min_xy, max_xy, PLAYER_RADIUS. simpl.
  replace (0 + 32) with Spec.RADIUS by (unfold Spec.RADIUS; ring).
  unfold to_pos, Spec.confine, Glam.new. simpl.
  rewrite !confine_axis_clamp by (unfold Spec.RADIUS; lra). reflexivity.
Qed.

(** ** The update system is the spec's clamp *)

(** C18: with one primary window at least [64] wide and high and one
    player, [confine_player_movement] is the spec's Boundary Clamp
    [x <- clamp(x, Radius, width - Radius)], and the same for y. *)
Theorem confine_player_movement_confines (w : World R) ew win e t :
  window_query w = {[ew := win]} -> player_query w = {[e := t]} ->
  64 <= width win -> 64 <= height win ->
  exists t', confine_player_movement w = Done (set_transforms w (<[e := t']> (transforms w)), [])
    /\ to_pos (translation t') = Spec.confine (to_pos (translation t)) (width win) (height win)
    /\ rotation t' = rotation t /\ scale t' = scale t.
Proof.
  intros Hw Hp Hwd Hht. rewrite (confine_player_movement_exact w ew win e t Hw Hp).
  eexists. split; [reflexivity|]. cbn [translation set_translation rotation scale].
  by rewrite to_pos_confine.
Qed.

(** ** At a concrete input *)

Lemma confine_player_movement_confines_witness :
  exists t', confine_player_movement (rworld [] 0) =
      Done (set_transforms (rworld [] 0) (<[1%nat := t']> (transforms (rworld [] 0))), [])
    /\ to_pos (translation t') = Spec.confine (to_pos (translation (from_xyz 400 300 0))) (width rwin) (height rwin)
    /\ rotation t' = rotation (from_xyz 400 300 0) /\ scale t' = scale (from_xyz 400 300 0).
Proof.
  apply (confine_player_movement_confines (rworld [] 0) 0%nat rwin 1%nat (from_xyz 400 300 0));
    [reflexivity | reflexivity | simpl; lra | simpl; lra].
Defined.

End Refinement.
